(** * snk: the dynamic command line of a Snakemake pipeline

    A shallow embedding of [snk/cli/main.py] and
    [snk/cli/subcommands/run.py]: the argument reconciler
    [parse_config_args], the key codec [convert_key_to_samkemake_format],
    [serialise], the option synthesizer [build_dynamic_cli_options], the
    resource staging context managers and the two [run] commands.

    Python objects are modelled by the inductive type [value]; a Python
    [dict] is an association list in insertion order (the code reads
    [list(d.keys())[0]] and iterates in order); raised exceptions are the
    [Raise] results of a small error monad. *)

From Stdlib Require Import ZArith Ascii Floats.SpecFloat.
From stdpp Require Import base list strings gmap pretty.

(** ** Python strings *)

Module Str.

(** [c in chars], for a character [c] and a str [chars]. *)
Fixpoint mem (c : ascii) (chars : string) : bool :=
  match chars with
  | EmptyString => false
  | String a rest => bool_decide (a = c) || mem c rest
  end.

(** [s.lstrip(chars)]: drop the leading characters that occur in [chars]. *)
Fixpoint lstrip (chars : string) (s : string) : string :=
  match s with
  | EmptyString => EmptyString
  | String a rest => if mem a chars then lstrip chars rest else s
  end.

(** [s.startswith(p)]. *)
Fixpoint startswith (p s : string) : bool :=
  match p, s with
  | EmptyString, _ => true
  | String a p', String b s' => bool_decide (a = b) && startswith p' s'
  | String _ _, EmptyString => false
  end.

(** [s.split(sep)] for a one character separator; never the empty list. *)
Fixpoint split (sep : ascii) (s : string) : list string :=
  match s with
  | EmptyString => [EmptyString]
  | String a rest =>
      if bool_decide (a = sep) then EmptyString :: split sep rest
      else match split sep rest with
           | p :: ps => String a p :: ps
           | [] => [String a EmptyString]
           end
  end.

(** [sep.join(parts)]. *)
Fixpoint join (sep : string) (parts : list string) : string :=
  match parts with
  | [] => EmptyString
  | [p] => p
  | p :: ps => p +:+ sep +:+ join sep ps
  end.

(** [s.replace(old, new)] for one character [old] and [new]. *)
Fixpoint replace_char (old new : ascii) (s : string) : string :=
  match s with
  | EmptyString => EmptyString
  | String a rest =>
      String (if bool_decide (a = old) then new else a) (replace_char old new rest)
  end.

(** [s[n:]]. *)
Fixpoint drop (n : nat) (s : string) : string :=
  match n, s with
  | O, _ => s
  | S n', String _ rest => drop n' rest
  | S _, EmptyString => EmptyString
  end.

(** [s.replace(old, new)] for a non-empty [old]: the occurrences are
    replaced from left to right without overlap.  The recursion is on a
    counter that starts at the length of [s]. *)
Fixpoint replace_fuel (fuel : nat) (old new s : string) : string :=
  match fuel with
  | O => s
  | S fuel' =>
      match s with
      | EmptyString => EmptyString
      | String a rest =>
          if startswith old s
          then new +:+ replace_fuel fuel' old new (drop (String.length old) s)
          else String a (replace_fuel fuel' old new rest)
      end
  end.

Definition replace (old new s : string) : string :=
  replace_fuel (String.length s) old new s.

End Str.

(** ** Python values *)

(** The objects a configuration tree, an annotation mapping and a command
    line can hold.  A [Path] and a [datetime] carry their [str()] form,
    which is all the code reads of them. *)
#[warning="-register-all"]
Inductive value : Type :=
| VNone
| VBool (b : bool)
| VInt (n : Z)
| VFloat (f : spec_float)
| VStr (s : string)
| VPath (s : string)
| VDatetime (s : string)
| VList (l : list value)
| VDict (d : list (string * value)).

Abbreviation dict := (list (string * value)).

(** Exceptions the modelled code can raise. *)
Inductive exn : Type :=
| StopIteration
| KeyError
| IndexError
| TypeError
| AttributeError
| ValueError
| FileNotFoundError
| DuplicateOptionError
| RuntimeError
| SystemExit (status : Z)
| EngineError
| FileExistsError
| NotADirectoryError
| IsADirectoryError
| OSError.

Inductive result (A : Type) : Type :=
| Ok (a : A)
| Raise (e : exn).
Arguments Ok {A} a.
Arguments Raise {A} e.

Definition bind {A B : Type} (r : result A) (k : A -> result B) : result B :=
  match r with
  | Ok a => k a
  | Raise e => Raise e
  end.

#[global] Instance result_bind : MBind result := fun A B k r => bind r k.

(** A left-to-right [for] loop whose body may raise. *)
Fixpoint for_each {A S : Type} (body : S -> A -> result S) (xs : list A) (st : S)
  : result S :=
  match xs with
  | [] => Ok st
  | x :: rest => st' ← body st x; for_each body rest st'
  end.

Module Dict.

(** [d.get(k)]: the value of the first entry under [k]. *)
Fixpoint get {V : Type} (k : string) (d : list (string * V)) : option V :=
  match d with
  | [] => None
  | (k', v) :: rest => if decide (k' = k) then Some v else get k rest
  end.

(** [d[k] = v]: an existing key keeps its place, a new one goes last. *)
Fixpoint set {V : Type} (k : string) (v : V) (d : list (string * V)) : list (string * V) :=
  match d with
  | [] => [(k, v)]
  | (k', v') :: rest =>
      if decide (k' = k) then (k', v) :: rest else (k', v') :: set k v rest
  end.

(** [d[k]]. *)
Definition getitem {V : Type} (k : string) (d : list (string * V)) : result V :=
  match get k d with
  | Some v => Ok v
  | None => Raise KeyError
  end.

(** [d.get(k, dflt)]. *)
Definition get_default {V : Type} (k : string) (dflt : V) (d : list (string * V)) : V :=
  match get k d with
  | Some v => v
  | None => dflt
  end.

Definition keys {V : Type} (d : list (string * V)) : list string := d.*1.

(** [dict(items)]. *)
Definition of_items {V : Type} (items : list (string * V)) : list (string * V) :=
  fold_left (fun d kv => set kv.1 kv.2 d) items [].

End Dict.

(** [f == n] for a float [f] and an int [n]: the comparison is exact. *)
Definition float_eq_int (f : spec_float) (n : Z) : bool :=
  match f with
  | S754_zero _ => bool_decide (n = 0%Z)
  | S754_finite s m e =>
      let mz := if s then Z.neg m else Z.pos m in
      if bool_decide (0 ≤ e)%Z then bool_decide (n = mz * 2 ^ e)%Z
      else bool_decide (n * 2 ^ (- e) = mz)%Z
  | _ => false
  end.

Definition int_of_bool (b : bool) : Z := if b then 1%Z else 0%Z.

(** [a == b].  A bool is an int; numbers compare by value; lists compare
    element by element; dicts compare as mappings, whatever the order of
    their items; a [Path] or a [datetime] compares by its [str()] form
    with an object of its own type; objects of different types are not
    equal. *)
Fixpoint py_eq (a b : value) {struct a} : bool :=
  match a, b with
  | VNone, VNone => true
  | VBool x, VBool y => bool_decide (x = y)
  | VBool x, VInt n => bool_decide (int_of_bool x = n)
  | VInt n, VBool x => bool_decide (n = int_of_bool x)
  | VBool x, VFloat f => float_eq_int f (int_of_bool x)
  | VFloat f, VBool x => float_eq_int f (int_of_bool x)
  | VInt n, VInt m => bool_decide (n = m)
  | VInt n, VFloat f => float_eq_int f n
  | VFloat f, VInt n => float_eq_int f n
  | VFloat f, VFloat g => SFeqb f g
  | VStr s, VStr t => bool_decide (s = t)
  | VPath s, VPath t => bool_decide (s = t)
  | VDatetime s, VDatetime t => bool_decide (s = t)
  | VList l1, VList l2 =>
      (fix go (l1 l2 : list value) {struct l1} : bool :=
         match l1, l2 with
         | [], [] => true
         | x :: l1', y :: l2' => py_eq x y && go l1' l2'
         | _, _ => false
         end) l1 l2
  | VDict d1, VDict d2 =>
      bool_decide (length d1 = length d2)
      && forallb (fun kv => match Dict.get kv.1 d2 with
                            | Some v' => py_eq kv.2 v'
                            | None => false
                            end) d1
  | _, _ => false
  end.

(** [type(v).__name__]. *)
Definition type_name (v : value) : string :=
  match v with
  | VNone => "NoneType"
  | VBool _ => "bool"
  | VInt _ => "int"
  | VFloat _ => "float"
  | VStr _ => "str"
  | VPath _ => "PosixPath"
  | VDatetime _ => "datetime"
  | VList _ => "list"
  | VDict _ => "dict"
  end.

(** [v.replace(old, new)]: a str method; the other objects have no such
    two-argument method. *)
Definition replace_method (old new : ascii) (v : value) : result string :=
  match v with
  | VStr s => Ok (Str.replace_char old new s)
  | VPath _ | VDatetime _ => Raise TypeError
  | _ => Raise AttributeError
  end.

(** ** The working directory and the [with] statement *)

(** What a path outside the working directory denotes: a file with its
    data, or a directory, [tree] naming its content. *)
Inductive source : Type :=
| SrcFile (data : string)
| SrcDir (tree : string).

(** An entry of the working directory: a file, a directory, or a link
    with what it points to, [None] when the target is missing (a dangling
    link).  The target of a link is taken to lie outside the working
    directory. *)
Inductive node : Type :=
| File (data : string)
| Directory (tree : string)
| Symlink (target : string) (referent : option source).

(** A [Path], by the two things the code reads of it: [str(p)] and
    [p.name]. *)
Record path : Type := { path_str : string; path_name : string }.

Abbreviation workdir := (gmap string node).

(** [(Path('.') / name).exists()]; the empty name and [".."] denote the
    working directory and its parent.  [exists()] follows links: a
    dangling link is in the directory and does not exist. *)
Definition exists_ (wd : workdir) (name : string) : bool :=
  bool_decide (name = EmptyString ∨ name = "..")
  || match wd !! name with
     | Some (Symlink _ None) | None => false
     | Some _ => true
     end.

(** [(Path('.') / name).is_dir()], which follows links too, and
    [(Path('.') / name).is_symlink()], for the name of an entry. *)
Definition is_dir (wd : workdir) (name : string) : bool :=
  match wd !! name with
  | Some (Directory _) | Some (Symlink _ (Some (SrcDir _))) => true
  | _ => false
  end.

Definition is_symlink (wd : workdir) (name : string) : bool :=
  match wd !! name with
  | Some (Symlink _ _) => true
  | _ => false
  end.

(** How a block of statements ends. *)
Inductive outcome : Type :=
| Normal
| Return
| Raised (e : exn).

(** [with cm(): body] for a [@contextmanager] generator of the shape
    [try: setup; yield  finally: fin].  [setup] returns the local state
    and the exception it stopped on, if any; [fin] ends normally, by a
    [return] statement or by an exception of its own.  An exception of
    the [finally] block is the one that leaves the [with] statement.  A
    [return] in the [finally] block drops the exception in flight: the
    generator then ends without re-raising it, so [__exit__] reports it
    handled and the [with] statement continues; when [setup] raised, the
    generator ends without a [yield] and [__enter__] raises
    [RuntimeError]. *)
Definition with_generator {L : Type}
    (setup : workdir -> workdir * L * option exn)
    (fin : L -> workdir -> workdir * outcome)
    (body : workdir -> workdir * outcome) (wd : workdir) : workdir * outcome :=
  let '(wd1, l, err) := setup wd in
  match err with
  | Some e =>
      let '(wd2, ended) := fin l wd1 in
      (wd2, match ended with
            | Raised e' => Raised e'
            | Return => Raised RuntimeError
            | Normal => Raised e
            end)
  | None =>
      let '(wd2, out) := body wd1 in
      let '(wd3, ended) := fin l wd2 in
      (wd3, match ended with
            | Raised e' => Raised e'
            | Return => match out with Raised _ => Normal | _ => out end
            | Normal => out
            end)
  end.

(** A str argument that counts as true: given and not empty. *)
Definition nonempty (s : option string) : option string :=
  match s with
  | Some EmptyString => None
  | _ => s
  end.

(** A statement sequence: [k] runs only after a normal end. *)
Definition seq (r : workdir * outcome) (k : workdir -> workdir * outcome)
  : workdir * outcome :=
  match r.2 with
  | Normal => k r.1
  | _ => r
  end.

(** [shutil.rmtree(name)]: removes a directory; refuses a link, fails on
    a file and on a missing name (the target of a dangling link is one),
    and then leaves the entry. *)
Definition rmtree (name : string) (wd : workdir) : workdir * outcome :=
  match wd !! name with
  | Some (Directory _) => (delete name wd, Normal)
  | Some (Symlink _ (Some _)) => (wd, Raised OSError)
  | Some (Symlink _ None) => (wd, Raised FileNotFoundError)
  | Some (File _) => (wd, Raised NotADirectoryError)
  | None => (wd, Raised FileNotFoundError)
  end.

(** [os.remove(name)] and [Path.unlink]: remove a file or a link, the
    link itself; fail on a directory and on a missing name. *)
Definition remove (name : string) (wd : workdir) : workdir * outcome :=
  match wd !! name with
  | Some (Directory _) => (wd, Raised IsADirectoryError)
  | Some _ => (delete name wd, Normal)
  | None => (wd, Raised FileNotFoundError)
  end.

(** ** snk/cli/main.py *)

Module Main.

(** The dict that the cursor [d] of [convert_key_to_samkemake_format]
    refers to: [d] aliases the dict reached from [resultDict] along
    [path]. *)
Fixpoint deref (root : dict) (path : list string) : result dict :=
  match path with
  | [] => Ok root
  | p :: ps =>
      match Dict.get p root with
      | Some (VDict sub) => deref sub ps
      | Some _ => Raise TypeError
      | None => Raise KeyError
      end
  end.

(** [d[k] = v] through the alias: the store is done in [resultDict]. *)
Fixpoint store (root : dict) (path : list string) (k : string) (v : value)
  : result dict :=
  match path with
  | [] => Ok (Dict.set k v root)
  | p :: ps =>
      match Dict.get p root with
      | Some (VDict sub) =>
          sub' ← store sub ps k v; Ok (Dict.set p (VDict sub') root)
      | Some _ => Raise TypeError
      | None => Raise KeyError
      end
  end.

(** One turn of [for part in parts[:-1]]; the state is [resultDict] and
    the path of the cursor [d]. *)
Definition convert_step (st : dict * list string) (part : string)
  : result (dict * list string) :=
  let '(root, path) := st in
  d ← deref root path;
  root' ← (match Dict.get part d with
            | None => store root path part (VDict [])
            | Some _ => Ok root
            end);
  d' ← deref root' path;
  next ← Dict.getitem part d';
  match next with
  | VDict _ => Ok (root', path ++ [part])
  | _ => Raise TypeError
  end.

Definition convert_key_to_samkemake_format (key : string) (v : value) : result dict :=
  let parts := Str.split ":" key in
  '(root, path) ← for_each convert_step (removelast parts) ([], []);
  match last parts with
  | Some p => store root path p v
  | None => Raise IndexError
  end.

(** [serialise]; the dict case updates every key of [d] in place with the
    serialised value and returns [d]. *)
Fixpoint serialise (d : value) : value :=
  match d with
  | VPath s => VStr s
  | VDatetime s => VStr s
  | VList l => VList (map serialise l)
  | VDict kvs =>
      VDict (fold_left (fun acc kv => Dict.set kv.1 (serialise kv.2) acc) kvs kvs)
  | _ => d
  end.

(** What the object [d] holds once [serialise(d)] has returned: a dict
    has been updated in place, and so have the dicts in a list, whose
    other items stay as they were. *)
Fixpoint serialised_in_place (d : value) : value :=
  match d with
  | VList l => VList (map serialised_in_place l)
  | VDict _ => serialise d
  | _ => d
  end.

(** An option descriptor, the dict built by [build_dynamic_cli_options]. *)
Record option_desc : Type := {
  op_name : string;
  op_original_key : string;
  op_default : value;
  op_help : value;
  op_type : value;
  op_required : value
}.

(** [next(op for op in options if op['name'] == name)]. *)
Fixpoint next_named (name : string) (options : list option_desc) : result option_desc :=
  match options with
  | [] => Raise StopIteration
  | op :: rest => if decide (op_name op = name) then Ok op else next_named name rest
  end.

(** Truth value of the pending [flag]: [None] and the empty str are false. *)
Definition truthy (flag : option string) : bool :=
  match flag with
  | Some f => negb (bool_decide (f = EmptyString))
  | None => false
  end.

(** The loop state of [parse_config_args]: [flag], [parsed], [config]. *)
Record pstate : Type := {
  flag : option string;
  parsed : list string;
  config : list dict
}.

Definition names (options : list option_desc) : list string := map op_name options.

Definition is_flag (options : list option_desc) (arg : string) : bool :=
  Str.startswith "-" arg && bool_decide (Str.lstrip "-" arg ∈ names options).

(** The override entry appended for the value [arg] of descriptor [op]
    found under [name]. *)
Definition override (name : string) (op : option_desc) (arg : string) : result dict :=
  if Str.mem ":" (op_original_key op) then
    samkemake_format_config ← convert_key_to_samkemake_format (op_original_key op) (VStr arg);
    match Dict.keys samkemake_format_config with
    | [] => Raise IndexError
    | name' :: _ =>
        arg' ← Dict.getitem name' samkemake_format_config;
        Ok [(name', serialise arg')]
    end
  else Ok [(name, serialise (VStr arg))].

Definition parse_step (options : list option_desc) (st : pstate) (arg : string)
  : result pstate :=
  if truthy (flag st) then
    let name := Str.lstrip "-" (default EmptyString (flag st)) in
    op ← next_named name options;
    if py_eq (op_default op) (serialise (VStr arg))
    then Ok {| flag := None; parsed := parsed st; config := config st |}
    else
      entry ← override name op arg;
      Ok {| flag := None; parsed := parsed st; config := config st ++ [entry] |}
  else if is_flag options arg then
    Ok {| flag := Some arg; parsed := parsed st; config := config st |}
  else
    Ok {| flag := flag st; parsed := parsed st ++ [arg]; config := config st |}.

Definition init : pstate := {| flag := None; parsed := []; config := [] |}.

Definition parse_config_args (args : list string) (options : list option_desc)
  : result (list string * list dict) :=
  st ← for_each (parse_step options) args init;
  Ok (parsed st, config st).

(** The flag left pending once the loop of [parse_config_args] has read
    [args]. *)
Definition pending (options : list option_desc) (args : list string) : option string :=
  match for_each (parse_step options) args init with
  | Ok st => flag st
  | Raise _ => None
  end.

(** The same loop read over bound values: a token of [args] is any
    Python object, the value after a descriptor flag being the value bound
    to the descriptor, of its type.  [serialise] and [==] then bear on
    that object, which the override is built from once [serialise] has
    been through it; [arg.startswith] is a str method, which an object
    of another type lacks. *)
Record bstate : Type := {
  bflag : option string;
  bparsed : list value;
  bconfig : list dict
}.

Definition override_bound (name : string) (op : option_desc) (arg : value) : result dict :=
  if Str.mem ":" (op_original_key op) then
    samkemake_format_config ← convert_key_to_samkemake_format (op_original_key op) arg;
    match Dict.keys samkemake_format_config with
    | [] => Raise IndexError
    | name' :: _ =>
        arg' ← Dict.getitem name' samkemake_format_config;
        Ok [(name', serialise arg')]
    end
  else Ok [(name, serialise arg)].

Definition parse_bound_step (options : list option_desc) (st : bstate) (arg : value)
  : result bstate :=
  if truthy (bflag st) then
    let name := Str.lstrip "-" (default EmptyString (bflag st)) in
    op ← next_named name options;
    if py_eq (op_default op) (serialise arg)
    then Ok {| bflag := None; bparsed := bparsed st; bconfig := bconfig st |}
    else
      let arg := serialised_in_place arg in
      entry ← override_bound name op arg;
      Ok {| bflag := None; bparsed := bparsed st; bconfig := bconfig st ++ [entry] |}
  else
    match arg with
    | VStr s =>
        if is_flag options s then
          Ok {| bflag := Some s; bparsed := bparsed st; bconfig := bconfig st |}
        else
          Ok {| bflag := bflag st; bparsed := bparsed st ++ [arg]; bconfig := bconfig st |}
    | _ => Raise AttributeError
    end.

Definition binit : bstate := {| bflag := None; bparsed := []; bconfig := [] |}.

Definition parse_config_args_bound (args : list value) (options : list option_desc)
  : result (list value * list dict) :=
  st ← for_each (parse_bound_step options) args binit;
  Ok (bparsed st, bconfig st).


(** Modelled from the spec: [flatten] is imported from [snk/cli/utils.py],
    which is not among the sources.  Depth first, one entry per leaf (a
    value that is not a mapping) under the path joined with [":"], leaves
    serialised, in the order of the traversal, collected into a dict. *)
Fixpoint flatten_leaves (key : string) (v : value) : list (string * value) :=
  match v with
  | VDict kvs => flat_map (fun kv => flatten_leaves (key +:+ ":" +:+ kv.1) kv.2) kvs
  | _ => [(key, serialise v)]
  end.

Definition flatten (tree : dict) : dict :=
  Dict.of_items (flat_map (fun kv => flatten_leaves kv.1 kv.2) tree).

(** The body of [for op in flat_config]. *)
Definition build_option (flat_config flat_snk_annotations : dict) (op : string)
  : result option_desc :=
  let name :=
    Dict.get_default (op +:+ ":name") (VStr (Str.replace_char ":" "_" op))
      flat_snk_annotations in
  let help := Dict.get_default (op +:+ ":help") (VStr EmptyString) flat_snk_annotations in
  dflt ← Dict.getitem op flat_config;
  let param_type :=
    Dict.get_default (op +:+ ":type") (VStr (type_name dflt)) flat_snk_annotations in
  let required :=
    Dict.get_default (op +:+ ":required") (VBool false) flat_snk_annotations in
  name' ← replace_method "-" "_" name;
  Ok {| op_name := name';
        op_original_key := op;
        op_default := dflt;
        op_help := help;
        op_type := param_type;
        op_required := required |}.

(** The loop of [build_dynamic_cli_options] over the flattened mappings. *)
Definition build_options (flat_config flat_snk_annotations : dict)
  : result (list option_desc) :=
  for_each
    (fun options op =>
       o ← build_option flat_config flat_snk_annotations op; Ok (options ++ [o]))
    (Dict.keys flat_config) [].

Definition build_dynamic_cli_options (snakemake_config annotations : dict)
  : result (list option_desc) :=
  build_options (flatten snakemake_config) (flatten annotations).

(** [CLI._find_snakefile]: [choices] is [snakemake.SNAKEFILE_CHOICES],
    [at_pipeline path] is [self.pipeline.path / path] and [path_exists]
    tells whether a path exists. *)
Fixpoint _find_snakefile (at_pipeline : string -> string) (path_exists : string -> bool)
    (choices : list string) : result string :=
  match choices with
  | [] => Raise FileNotFoundError
  | path :: rest =>
      if path_exists (at_pipeline path) then Ok (at_pipeline path)
      else _find_snakefile at_pipeline path_exists rest
  end.

Section Collaborators.

(** [str()], as the f-strings apply it to an override value. *)
Variable py_str : value -> string.
(** The resources below the pipeline directory. *)
Variable pipeline : string -> option source.
(** [snakemake.main(args)] on the working directory: its effect and the
    exception it ends with ([SystemExit] on a clean exit). *)
Variable engine : list string -> workdir -> workdir * option exn.
(** [launch_gui]. *)
Variable launch_gui : dict -> workdir -> workdir * option exn.

(** [copy_resource]: [shutil.copytree] for a directory, which refuses a
    destination that is in the working directory, be it a dangling link;
    [shutil.copy] otherwise, which needs the source, overwrites a file,
    writes through a link at the destination (a dangling link, too: it
    creates the file that the link points to, the directory of that file
    being taken to be there), and puts the file into a directory at the
    destination, whose entry stays. *)
Definition copy_resource (src : string) (dst : string) (wd : workdir) : result workdir :=
  match pipeline src with
  | Some (SrcDir tree) =>
      match wd !! dst with
      | Some _ => Raise FileExistsError
      | None => Ok (<[dst := Directory tree]> wd)
      end
  | Some (SrcFile data) =>
      match wd !! dst with
      | Some (Directory _) | Some (Symlink _ (Some (SrcDir _))) => Ok wd
      | Some (Symlink target _) => Ok (<[dst := Symlink target (Some (SrcFile data))]> wd)
      | _ => Ok (<[dst := File data]> wd)
      end
  | None => Raise FileNotFoundError
  end.

(** [remove_resource]; [shutil.rmtree] refuses a link to a directory.
    The names it is called on are those that staging appended to
    [copied_resources], neither empty nor [".."]. *)
Definition remove_resource (resource : string) (wd : workdir) : workdir * outcome :=
  if is_dir wd resource then rmtree resource wd else remove resource wd.

(** The staging loop of [copy_resources]: the working directory, the
    list [copied_resources] and the exception that stopped the loop. *)
Fixpoint stage (resources : list path) (wd : workdir) (copied_resources : list string)
  : workdir * list string * option exn :=
  match resources with
  | [] => (wd, copied_resources, None)
  | resource :: rest =>
      let destination := path_name resource in
      if negb (exists_ wd destination) then
        match copy_resource (path_str resource) destination wd with
        | Ok wd' => stage rest wd' (copied_resources ++ [destination])
        | Raise e => (wd, copied_resources, Some e)
        end
      else stage rest wd copied_resources
  end.

(** The loop of the [finally] block; an exception of [remove_resource]
    ends it. *)
Fixpoint remove_copied (copied_resources : list string) (wd : workdir) : workdir * outcome :=
  match copied_resources with
  | [] => (wd, Normal)
  | copied_resource :: rest =>
      if exists_ wd copied_resource
      then seq (remove_resource copied_resource wd) (remove_copied rest)
      else remove_copied rest wd
  end.

(** The [finally] block: an early [return] unless [cleanup]. *)
Definition unstage (cleanup : bool) (copied_resources : list string) (wd : workdir)
  : workdir * outcome :=
  if negb cleanup then (wd, Return) else remove_copied copied_resources wd.

Definition copy_resources (resources : list path) (cleanup : bool)
    (body : workdir -> workdir * outcome) (wd : workdir) : workdir * outcome :=
  with_generator (fun w => stage resources w []) (unstage cleanup) body wd.

(** The part of a [CLI] instance and of the environment that [run] reads. *)
Record cli : Type := {
  conda_prefix_dir : string;
  snakefile : string;
  snakefile_exists : bool;
  pipeline_configfile : option string;
  mamba_found : bool;
  options : list option_desc;
  resources : list path
}.

(** The arguments of [run]. *)
Record run_args : Type := {
  ctx_args : list string;
  target : option string;
  configfile : option string;
  cleanup_resources : bool;
  cleanup_snakemake : bool;
  cores : option Z;
  verbose : bool;
  web_gui : bool
}.

(** [f"{list(c.keys())[0]}={list(c.values())[0]}"]. *)
Definition key_value (c : dict) : result string :=
  match c with
  | [] => Raise IndexError
  | (k, v) :: _ => Ok (k +:+ "=" +:+ py_str v)
  end.

Fixpoint key_values (cs : list dict) : result (list string) :=
  match cs with
  | [] => Ok []
  | c :: rest => kv ← key_value c; kvs ← key_values rest; Ok (kv :: kvs)
  end.

(** The arguments that [run] collects before it reads [ctx.args]. *)
Definition fixed_args (self : cli) (a : run_args) : result (list string) :=
  let cores_str :=
    match cores a with
    | Some n => if bool_decide (n = 0%Z) then "all" else pretty n
    | None => "all"
    end in
  let args :=
    ["--use-conda"; "--use-singularity";
     "--conda-prefix=" +:+ conda_prefix_dir self;
     "--cores=" +:+ cores_str] in
  args ← (if negb (snakefile_exists self) then Raise ValueError
          else Ok (args ++ ["--snakefile=" +:+ snakefile self]));
  let configfile :=
    match configfile a with
    | Some c => Some c
    | None => pipeline_configfile self
    end in
  let args :=
    match configfile with
    | Some c => args ++ ["--configfile=" +:+ c]
    | None => args
    end in
  let args := if negb (mamba_found self) then args ++ ["--conda-frontend=conda"] else args in
  let args := if verbose a then "--verbose" :: args else args in
  let args :=
    match nonempty (target a) with
    | Some t => args ++ [t]
    | None => args
    end in
  Ok args.

(** The argument list [run] hands to [snakemake.main], with the override
    list. *)
Definition assemble (self : cli) (a : run_args) : result (list string * list dict) :=
  args ← fixed_args self a;
  '(targets_and_or_snakemake, config_dict_list) ←
    parse_config_args (ctx_args a) (options self);
  let args := args ++ targets_and_or_snakemake in
  kvs ← key_values config_dict_list;
  Ok (args ++ "--config" :: kvs, config_dict_list).

(** How an external call ends, as a block outcome. *)
Definition call (r : workdir * option exn) : workdir * outcome :=
  (r.1, match r.2 with Some e => Raised e | None => Normal end).

(** [shutil.rmtree(".snakemake")]. *)
Definition rmtree_snakemake (wd : workdir) : workdir * outcome :=
  rmtree ".snakemake" wd.

(** [CLI.run]; [resources self] is [snk_config.resources] once
    [add_resources] has returned. *)
Definition run (self : cli) (a : run_args) (wd : workdir) : workdir * outcome :=
  match assemble self a with
  | Raise e => (wd, Raised e)
  | Ok (args, config_dict_list) =>
      seq (copy_resources (resources self) (cleanup_resources a)
             (fun w =>
                if web_gui a then call (launch_gui (Dict.of_items (concat config_dict_list)) w)
                else call (engine args w))
             wd)
          (fun w => if cleanup_snakemake a then rmtree_snakemake w else (w, Normal))
  end.

End Collaborators.

End Main.

(** ** snk/cli/subcommands/run.py *)

Module RunApp.

Section Collaborators.

Variable py_str : value -> string.
Variable pipeline : string -> option source.
Variable engine : list string -> workdir -> workdir * option exn.
(** The end of [_save_dag]: the output that the engine printed for the
    arguments is cut at [snakemake_dag] and piped through [dot] into the
    file. *)
Variable render_dag : list string -> string -> workdir -> workdir * option exn.

(** [copy_resource]: [os.symlink] makes a link to the source, there or
    not, and refuses a destination that is in the working directory, be
    it a dangling link; so does [shutil.copytree]; [shutil.copy] needs the
    source, overwrites a file, writes through a link at the destination
    (a dangling link, too: it creates the file that the link points to,
    the directory of that file being taken to be there), and puts the
    file into a directory at the destination, whose entry stays. *)
Definition copy_resource (src : string) (dst : string) (symlink : bool) (wd : workdir)
  : result workdir :=
  if symlink then
    match wd !! dst with
    | Some _ => Raise FileExistsError
    | None => Ok (<[dst := Symlink src (pipeline src)]> wd)
    end
  else
    match pipeline src with
    | Some (SrcDir tree) =>
        match wd !! dst with
        | Some _ => Raise FileExistsError
        | None => Ok (<[dst := Directory tree]> wd)
        end
    | Some (SrcFile data) =>
        match wd !! dst with
        | Some (Directory _) | Some (Symlink _ (Some (SrcDir _))) => Ok wd
        | Some (Symlink target _) => Ok (<[dst := Symlink target (Some (SrcFile data))]> wd)
        | _ => Ok (<[dst := File data]> wd)
        end
    | None => Raise FileNotFoundError
    end.

(** [remove_resource]: a link is unlinked, whatever it points to.  The
    names it is called on are those that staging appended to
    [copied_resources], neither empty nor [".."]. *)
Definition remove_resource (resource : string) (wd : workdir) : workdir * outcome :=
  if is_symlink wd resource then remove resource wd
  else if is_dir wd resource then rmtree resource wd
  else remove resource wd.

Fixpoint stage (symlink : bool) (resources : list path) (wd : workdir)
    (copied_resources : list string) : workdir * list string * option exn :=
  match resources with
  | [] => (wd, copied_resources, None)
  | resource :: rest =>
      let destination := path_name resource in
      if negb (exists_ wd destination) then
        match copy_resource (path_str resource) destination symlink wd with
        | Ok wd' => stage symlink rest wd' (copied_resources ++ [destination])
        | Raise e => (wd, copied_resources, Some e)
        end
      else stage symlink rest wd copied_resources
  end.

(** The loop of the [finally] block. *)
Fixpoint remove_copied (copied_resources : list string) (wd : workdir) : workdir * outcome :=
  match copied_resources with
  | [] => (wd, Normal)
  | copied_resource :: rest =>
      if exists_ wd copied_resource
      then seq (remove_resource copied_resource wd) (remove_copied rest)
      else remove_copied rest wd
  end.

Definition unstage (cleanup : bool) (copied_resources : list string) (wd : workdir)
  : workdir * outcome :=
  if negb cleanup then (wd, Return) else remove_copied copied_resources wd.

(** The resource list once the [resources] folder of the pipeline, when
    there is one, has been put in front. *)
Definition with_resources_folder (resources : list path) : list path :=
  if bool_decide (is_Some (pipeline "resources"))
  then {| path_str := "resources"; path_name := "resources" |} :: resources
  else resources.

Definition _copy_resources (resources : list path) (cleanup : bool) (symlink_resources : bool)
    (body : workdir -> workdir * outcome) (wd : workdir) : workdir * outcome :=
  with_generator
    (fun w => stage symlink_resources (with_resources_folder resources) w [])
    (unstage cleanup) body wd.

(** The part of a [RunApp] instance and of the environment that [run]
    reads; [profiles] gives the name and the path of each profile. *)
Record app : Type := {
  conda_prefix_dir : string;
  singularity_prefix_dir : option string;
  snakefile : string;
  snakefile_exists : bool;
  pipeline_configfile : option string;
  profiles : list path;
  conda_found : bool;
  mamba_found : bool;
  require_conda : bool;
  symlink_resources : bool;
  options : list Main.option_desc;
  resources : list path
}.

Record run_args : Type := {
  ctx_args : list string;
  target : option string;
  configfile : option string;
  profile : option string;
  force : bool;
  dry : bool;
  lock : bool;
  keep_resources : bool;
  keep_snakemake : bool;
  dag : option string;
  cores : option Z;
  verbose : bool
}.

(** [configs]: one [key=value] str per entry of each override dict. *)
Definition configs_of (config_dict_list : list dict) : list string :=
  flat_map (fun config_dict => map (fun kv => kv.1 +:+ "=" +:+ py_str kv.2) config_dict)
    config_dict_list.

(** [ctx.args] once the target, when given, has been appended to it. *)
Definition full_ctx_args (a : run_args) : list string :=
  match nonempty (target a) with
  | Some t => ctx_args a ++ [t]
  | None => ctx_args a
  end.

(** The arguments that [run] collects before it reads [ctx.args]. *)
Definition fixed_args (self : app) (a : run_args) : result (list string) :=
  let cores_str :=
    match cores a with
    | Some n => if bool_decide (n = 0%Z) then "all" else pretty n
    | None => "all"
    end in
  let args := ["--rerun-incomplete"; "--cores=" +:+ cores_str] in
  let args :=
    match singularity_prefix_dir self with
    | Some d =>
        if bool_decide ("--use-singularity" ∈ full_ctx_args a)
        then args ++ ["--singularity-prefix=" +:+ d] else args
    | None => args
    end in
  args ← (if negb (snakefile_exists self) then Raise ValueError
          else Ok (args ++ ["--snakefile=" +:+ snakefile self]));
  let configfile :=
    match configfile a with
    | Some c => Some c
    | None => pipeline_configfile self
    end in
  let args :=
    match configfile with
    | Some c => args ++ ["--configfile=" +:+ c]
    | None => args
    end in
  let args :=
    match nonempty (profile a) with
    | Some p =>
        match filter (fun q => p = path_name q) (profiles self) with
        | found :: _ => args ++ ["--profile=" +:+ path_str found]
        | [] => args ++ ["--profile=" +:+ p]
        end
    | None => args
    end in
  let args :=
    if conda_found self || require_conda self then
      args ++ ["--use-conda"; "--conda-prefix=" +:+ conda_prefix_dir self]
           ++ [if negb (mamba_found self) then "--conda-frontend=conda"
               else "--conda-frontend=mamba"]
    else args in
  let args := if verbose a then "--verbose" :: args else args in
  let args := if force a then args ++ ["--forceall"] else args in
  let args := if dry a then args ++ ["--dryrun"] else args in
  let args := if negb (lock a) then args ++ ["--nolock"] else args in
  Ok args.

(** The argument list [run] hands to [snakemake.main].
    [parse_config_args] is imported from [snk/cli/utils.py]; the one of
    [main.py] stands for it. *)
Definition assemble (self : app) (a : run_args) : result (list string) :=
  args ← fixed_args self a;
  '(targets_and_or_snakemake, config_dict_list) ←
    Main.parse_config_args (full_ctx_args a) (options self);
  let targets_and_or_snakemake :=
    map (Str.replace "--snake-" "-") targets_and_or_snakemake in
  let args := args ++ targets_and_or_snakemake in
  let configs := configs_of config_dict_list in
  Ok (match configs with
      | [] => args
      | _ :: _ => args ++ "--config" :: configs
      end).

(** [try: snakemake.main(args) except SystemExit as e: ...]: a clean exit
    is re-raised by [sys.exit(status)] when the status is not zero. *)
Definition run_engine (args : list string) (wd : workdir) : workdir * outcome :=
  let '(wd', ended) := engine args wd in
  (wd', match ended with
        | Some (SystemExit status) =>
            if bool_decide (status = 0%Z) then Normal else Raised (SystemExit status)
        | Some e => Raised e
        | None => Normal
        end).

(** [_save_dag]: the engine is run on the arguments with [--dag] added,
    a [SystemExit] of it is passed over, and its output is rendered. *)
Definition _save_dag (snakemake_args : list string) (filename : string) (wd : workdir)
  : workdir * outcome :=
  let snakemake_args := snakemake_args ++ ["--dag"] in
  let '(wd', ended) := engine snakemake_args wd in
  match ended with
  | Some (SystemExit _) | None =>
      let '(wd'', failed) := render_dag snakemake_args filename wd' in
      (wd'', match failed with Some e => Raised e | None => Normal end)
  | Some e => (wd', Raised e)
  end.

(** The block under [with self._copy_resources(...)]. *)
Definition run_body (a : run_args) (args : list string) (wd : workdir) : workdir * outcome :=
  match dag a with
  | Some filename =>
      let '(wd', out) := _save_dag args filename wd in
      (wd', match out with Normal => Return | _ => out end)
  | None => run_engine args wd
  end.

(** [RunApp.run]; [resources self] is [snk_config.resources] once
    [add_resources] has returned. *)
Definition run (self : app) (a : run_args) (wd : workdir) : workdir * outcome :=
  match assemble self a with
  | Raise e => (wd, Raised e)
  | Ok args =>
      let keep_snakemake :=
        if negb (keep_snakemake a) && exists_ wd ".snakemake" then true
        else keep_snakemake a in
      seq (_copy_resources (resources self) (negb (keep_resources a))
             (symlink_resources self) (run_body a args) wd)
          (fun w =>
             if negb keep_snakemake && exists_ w ".snakemake"
             then rmtree ".snakemake" w else (w, Normal))
  end.

(** The exit status of the command: that of the [SystemExit] it ends
    with, 0 when it returns, 1 for any other exception. *)
Definition exit_status (o : outcome) : Z :=
  match o with
  | Raised (SystemExit status) => status
  | Raised _ => 1%Z
  | _ => 0%Z
  end.

End Collaborators.

End RunApp.

(** ** The specification's nested mapping *)

(** From the words of the specification: the minimal nested single-entry
    mapping that reproduces the path [parts] with [v] at the leaf.  It is
    compared below with what [convert_key_to_samkemake_format] builds. *)
Fixpoint nested_mapping (parts : list string) (v : value) : dict :=
  match parts with
  | [] => []
  | [p] => [(p, v)]
  | p :: ps => [(p, VDict (nested_mapping ps v))]
  end.

(** ** Vocabulary of the statements *)

Import Main.

(** The chain of dicts that the loop of the codec has built once the
    cursor stands at [path]: every level has one entry, the last is
    empty. *)
Fixpoint chain (path : list string) : dict :=
  match path with
  | [] => []
  | p :: ps => [(p, VDict (chain ps))]
  end.

(** The accumulators only grow: a step from any [parsed] and [config] is
    the step from empty ones, appended. *)
Definition extend (p : list string) (c : list dict) (st : pstate) : pstate :=
  {| flag := flag st; parsed := p ++ parsed st; config := c ++ config st |}.


(** The pending flag is always a descriptor flag. *)
Definition flag_ok (options : list option_desc) (st : pstate) : Prop :=
  ∀ f, flag st = Some f → is_flag options f = true.

(** The override entry of descriptor [op] for the value [v]. *)
Definition entry_of (op : option_desc) (v : string) : dict :=
  if Str.mem ":" (op_original_key op)
  then nested_mapping (Str.split ":" (op_original_key op)) (VStr v)
  else [(op_name op, VStr v)].


(** The descriptor of the configuration [{a: {b: 1}}] without
    annotations. *)
Definition a_b : option_desc :=
  {| op_name := "a_b"; op_original_key := "a:b"; op_default := VInt 1;
     op_help := VStr EmptyString; op_type := VStr "int"; op_required := VBool false |}.

(** A descriptor whose key has no delimiter. *)
Definition threads : option_desc :=
  {| op_name := "threads"; op_original_key := "threads"; op_default := VInt 1;
     op_help := VStr EmptyString; op_type := VStr "int"; op_required := VBool false |}.

(** The name [n] does not exist in the working directory: it is the name
    of an entry, and nothing or a dangling link is there. *)
Definition absent (wd : workdir) (n : string) : Prop :=
  n ≠ EmptyString ∧ n ≠ ".."
  ∧ (wd !! n = None ∨ ∃ target, wd !! n = Some (Symlink target None)).

(** No entry of the working directory is a dangling link. *)
Definition no_dangling_link (wd : workdir) : Prop :=
  ∀ name target, wd !! name ≠ Some (Symlink target None).

(** None of [names] holds a link to a directory. *)
Definition no_link_to_directory (names : list string) (wd : workdir) : Prop :=
  ∀ name target tree, name ∈ names → wd !! name ≠ Some (Symlink target (Some (SrcDir tree))).

(** [r] is the first of [resources] whose name is [name]. *)
Definition first_named (name : string) (r : path) (resources : list path) : Prop :=
  ∃ before after,
    resources = before ++ r :: after
    ∧ path_name r = name
    ∧ Forall (fun r' => path_name r' ≠ name) before.

(** The entry that staging owes for the source [src] at a destination
    that does not exist, [old] being what the working directory holds
    there (nothing, or a dangling link): a link to the source when links
    are asked for; else the directory or the file copied from the source,
    the file being written through a dangling link. *)
Definition staged_entry (pipeline : string → option source) (symlink : bool)
    (src : string) (old : option node) : option node :=
  if symlink then Some (Symlink src (pipeline src))
  else
    match pipeline src with
    | Some (SrcDir tree) => Some (Directory tree)
    | Some (SrcFile data) =>
        Some match old with
             | Some (Symlink target _) => Symlink target (Some (SrcFile data))
             | _ => File data
             end
    | None => None
    end.

(** What staging owes: from the working directory [wd], staging
    [resources] gave [wd1] and the list [copied].  The names copied are
    those of the resources whose name did not exist; each holds in [wd1]
    the entry owed for the first resource of that name; the other names
    are as they were. *)
Definition staging_contract (pipeline : string → option source) (symlink : bool)
    (resources : list path) (wd wd1 : workdir) (copied : list string) : Prop :=
  (∀ n, n ∈ copied ↔ (∃ r, r ∈ resources ∧ path_name r = n) ∧ absent wd n)
  ∧ (∀ n, n ∈ copied →
       ∃ r nd, first_named n r resources
         ∧ staged_entry pipeline symlink (path_str r) (wd !! n) = Some nd
         ∧ wd1 !! n = Some nd)
  ∧ (∀ n, n ∉ copied → wd1 !! n = wd !! n).


(** A pipeline with the one resource [data.txt]. *)
Definition demo_pipeline (src : string) : option source :=
  if bool_decide (src = "data.txt") then Some (SrcFile "ACGT") else None.

(** An engine that fails: it ends by [sys.exit(1)]. *)
Definition failing_engine (args : list string) (wd : workdir) : workdir * option exn :=
  (wd, Some (SystemExit 1)).

Definition demo_save_dag (args : list string) (filename : string) (wd : workdir)
  : workdir * option exn := (wd, None).

Definition demo_cli : cli :=
  {| conda_prefix_dir := "/pipeline/.conda";
     snakefile := "/pipeline/Snakefile";
     snakefile_exists := true;
     pipeline_configfile := None;
     mamba_found := true;
     options := [a_b];
     resources := [] |}.

(** [run --dry-run target]: no descriptor flag, no override. *)
Definition demo_run_args : run_args :=
  {| ctx_args := ["--dry-run"];
     target := Some "target";
     configfile := None;
     cleanup_resources := true;
     cleanup_snakemake := true;
     cores := None;
     verbose := false;
     web_gui := false |}.

Definition demo_app : RunApp.app :=
  {| RunApp.conda_prefix_dir := "/pipeline/.conda";
     RunApp.singularity_prefix_dir := None;
     RunApp.snakefile := "/pipeline/Snakefile";
     RunApp.snakefile_exists := true;
     RunApp.pipeline_configfile := None;
     RunApp.profiles := [];
     RunApp.conda_found := true;
     RunApp.mamba_found := true;
     RunApp.require_conda := false;
     RunApp.symlink_resources := false;
     RunApp.options := [a_b];
     RunApp.resources := [{| path_str := "data.txt"; path_name := "data.txt" |}] |}.

(** [run -f error], with or without [--keep-resources]. *)
Definition demo_error_args (keep_resources : bool) : RunApp.run_args :=
  {| RunApp.ctx_args := [];
     RunApp.target := Some "error";
     RunApp.configfile := None;
     RunApp.profile := None;
     RunApp.force := true;
     RunApp.dry := false;
     RunApp.lock := false;
     RunApp.keep_resources := keep_resources;
     RunApp.keep_snakemake := false;
     RunApp.dag := None;
     RunApp.cores := None;
     RunApp.verbose := false |}.

(** A declared resource to stage and one whose name is taken. *)
Definition demo_resources : list path :=
  [{| path_str := "data.txt"; path_name := "data.txt" |};
   {| path_str := "old/keep.txt"; path_name := "keep.txt" |}].

Definition demo_wd : workdir := {[ "keep.txt" := File "mine" ]}.

(** A [CLI] instance that declares these resources. *)
Definition demo_staging_cli : cli :=
  {| conda_prefix_dir := "/pipeline/.conda";
     snakefile := "/pipeline/Snakefile";
     snakefile_exists := true;
     pipeline_configfile := None;
     mamba_found := true;
     options := [a_b];
     resources := demo_resources |}.

(** A call that fails. *)
Definition demo_body (wd : workdir) : workdir * outcome := (wd, Raised (SystemExit 1)).

(** A value whose dicts, at any depth, have pairwise distinct keys, as
    every Python dict has. *)
Fixpoint well_formed (v : value) : bool :=
  match v with
  | VList l => forallb well_formed l
  | VDict d => bool_decide (NoDup d.*1) && forallb (fun kv => well_formed kv.2) d
  | _ => true
  end.

(** A value without a [Path] or a [datetime], at any depth. *)
Fixpoint plain (v : value) : bool :=
  match v with
  | VPath _ | VDatetime _ => false
  | VList l => forallb plain l
  | VDict d => forallb (fun kv => plain kv.2) d
  | _ => true
  end.

(** [d[k1][k2]...[kn]] for the path [k1; ...; kn]. *)
Fixpoint get_path (path : list string) (d : dict) : option value :=
  match path with
  | [] => None
  | [k] => Dict.get k d
  | k :: ks =>
      match Dict.get k d with
      | Some (VDict sub) => get_path ks sub
      | _ => None
      end
  end.

(** The cleanup loop of both context managers. *)
Definition cleanup_loop (copied : list string) (wd : workdir) : workdir :=
  fold_left (fun w c => if exists_ w c then delete c w else w) copied wd.

(** A [str()] and a [launch_gui] to run the examples with. *)
Definition demo_py_str (v : value) : string :=
  match v with
  | VStr s => s
  | _ => "..."
  end.

Definition demo_launch_gui (config : dict) (wd : workdir) : workdir * option exn :=
  (wd, None).

(** * Properties *)

(** ** Strings *)

Lemma split_nonempty sep s : Str.split sep s ≠ [].
Proof. destruct s as [|a s]; simpl; [done|]. case_bool_decide; [done|]. by destruct (Str.split sep s). Qed.

Lemma split_no_sep sep s : Str.mem sep s = false → Str.split sep s = [s].
Proof.
  induction s as [|a s IH]; simpl; [done|].
  intros [Ha Hs]%orb_false_elim. apply bool_decide_eq_false in Ha.
  rewrite bool_decide_false by done. by rewrite IH.
Qed.

Lemma split_app_sep sep s t :
  Str.mem sep s = false →
  Str.split sep (s +:+ String sep t) = s :: Str.split sep t.
Proof.
  induction s as [|a s IH]; simpl.
  - intros _. by rewrite bool_decide_true.
  - intros [Ha Hs]%orb_false_elim. apply bool_decide_eq_false in Ha.
    rewrite bool_decide_false by done. by rewrite IH.
Qed.

Lemma split_join (sep : ascii) (parts : list string) :
  parts ≠ [] →
  Forall (fun p => Str.mem sep p = false) parts →
  Str.split sep (Str.join (String sep EmptyString) parts) = parts.
Proof.
  induction parts as [|p ps IH]; [done|]. intros _ Hall.
  apply Forall_cons in Hall as [Hp Hps].
  destruct ps as [|q ps].
  - by apply split_no_sep.
  - change (Str.join (String sep EmptyString) (p :: q :: ps))
      with (p +:+ String sep (Str.join (String sep EmptyString) (q :: ps))).
    rewrite split_app_sep by done. f_equal. by apply IH.
Qed.

Lemma mem_split_single sep s : Str.mem sep s = true → 2 ≤ length (Str.split sep s).
Proof.
  induction s as [|a s IH]; simpl; [done|].
  case_bool_decide; simpl.
  - intros _. pose proof (split_nonempty sep s). destruct (Str.split sep s); [done|simpl; lia].
  - intros Hs. specialize (IH Hs). destruct (Str.split sep s); simpl in *; lia.
Qed.

(** ** Dicts *)

Lemma get_singleton {V} (k : string) (v : V) : Dict.get k [(k, v)] = Some v.
Proof. simpl. by rewrite decide_True. Qed.

Lemma set_singleton {V} (k : string) (v w : V) : Dict.set k w [(k, v)] = [(k, w)].
Proof. simpl. by rewrite decide_True. Qed.

Lemma keys_set {V} (k : string) (v : V) d :
  Dict.keys (Dict.set k v d) = if bool_decide (k ∈ Dict.keys d) then Dict.keys d else Dict.keys d ++ [k].
Proof.
  induction d as [|[k' v'] d IH]; [done|].
  cbn [Dict.set]. destruct (decide (k' = k)) as [->|Hne].
  - rewrite bool_decide_true; [done|]. unfold Dict.keys. apply elem_of_cons. by left.
  - unfold Dict.keys in *. rewrite fmap_cons, IH.
    destruct (decide (k ∈ d.*1)) as [Hin|Hin].
    + rewrite !bool_decide_true; [done| |done]. apply elem_of_cons. by right.
    + rewrite !bool_decide_false; [done| |done]. apply not_elem_of_cons. by split.
Qed.

Lemma NoDup_keys_set {V} (k : string) (v : V) d :
  NoDup (Dict.keys d) → NoDup (Dict.keys (Dict.set k v d)).
Proof.
  intros Hd. rewrite keys_set. case_bool_decide; [done|].
  apply NoDup_app. split_and!; [done| |apply NoDup_singleton].
  intros x Hx ->%list_elem_of_singleton. done.
Qed.

Lemma NoDup_keys_of_items {V} (items : list (string * V)) :
  NoDup (Dict.keys (Dict.of_items items)).
Proof.
  unfold Dict.of_items.
  assert (∀ acc : list (string * V), NoDup (Dict.keys acc) →
    NoDup (Dict.keys (fold_left (fun d kv => Dict.set kv.1 kv.2 d) items acc))) as H.
  { induction items as [|kv items IH]; simpl; [done|].
    intros acc Hacc. apply IH. by apply NoDup_keys_set. }
  apply H. constructor.
Qed.

(** ** The error monad *)

Lemma bind_Ok {A B} (a : A) (k : A → result B) : (x ← Ok a; k x) = k a.
Proof. reflexivity. Qed.

Lemma bind_Raise {A B} (e : exn) (k : A → result B) : (x ← Raise e; k x) = Raise e.
Proof. reflexivity. Qed.

Lemma for_each_cons {A S} (body : S → A → result S) x xs st :
  for_each body (x :: xs) st = st' ← body st x; for_each body xs st'.
Proof. reflexivity. Qed.

Lemma for_each_app {A S} (body : S → A → result S) xs ys st :
  for_each body (xs ++ ys) st = st' ← for_each body xs st; for_each body ys st'.
Proof.
  revert st. induction xs as [|x xs IH]; intros st; simpl; [done|].
  unfold mbind, result_bind. destruct (body st x) as [st'|e]; simpl; [|done]. apply IH.
Qed.

(** ** The key codec *)

Lemma deref_chain path : Main.deref (chain path) path = Ok [].
Proof. induction path as [|p ps IH]; simpl; [done|]. by rewrite decide_True. Qed.

Lemma store_chain_dict path k :
  Main.store (chain path) path k (VDict []) = Ok (chain (path ++ [k])).
Proof.
  induction path as [|p ps IH]; simpl; [done|].
  rewrite decide_True by done. rewrite IH. simpl. by rewrite decide_True.
Qed.

Lemma store_chain_leaf path k v :
  Main.store (chain path) path k v = Ok (nested_mapping (path ++ [k]) v).
Proof.
  induction path as [|p ps IH]; simpl; [done|].
  rewrite decide_True by done. rewrite IH. simpl. rewrite decide_True by done.
  by destruct ps.
Qed.

Lemma deref_chain_snoc path k :
  Main.deref (chain (path ++ [k])) path = Ok [(k, VDict [])].
Proof. induction path as [|p ps IH]; simpl; [done|]. by rewrite decide_True. Qed.

Lemma convert_step_chain path part :
  Main.convert_step (chain path, path) part = Ok (chain (path ++ [part]), path ++ [part]).
Proof.
  unfold Main.convert_step. rewrite deref_chain. simpl.
  rewrite store_chain_dict. simpl. rewrite deref_chain_snoc. simpl.
  unfold Dict.getitem. rewrite get_singleton. done.
Qed.

Lemma convert_loop_chain parts path :
  for_each Main.convert_step parts (chain path, path)
  = Ok (chain (path ++ parts), path ++ parts).
Proof.
  revert path. induction parts as [|p ps IH]; intros path.
  - by rewrite app_nil_r.
  - rewrite for_each_cons, convert_step_chain, bind_Ok, IH. by rewrite <- app_assoc.
Qed.

(** The codec builds the nested mapping of the parts of the key, whatever
    the key. *)
Lemma convert_key_split key v :
  Main.convert_key_to_samkemake_format key v
  = Ok (nested_mapping (Str.split ":" key) v).
Proof.
  unfold Main.convert_key_to_samkemake_format.
  pose proof (split_nonempty ":" key) as Hne.
  destruct (exists_last Hne) as (front & p & Heq). rewrite Heq.
  rewrite removelast_last, last_snoc.
  pose proof (convert_loop_chain front []) as Hloop. simpl in Hloop.
  rewrite Hloop. simpl. apply store_chain_leaf.
Qed.

(** C6: for a key made of non-empty segments joined by [":"] the codec
    returns the nested single-entry mapping of the specification, with the
    value at the leaf; a key without the delimiter gives the one-level
    mapping of the key to the value. *)
Theorem C6_unflatten_key_nested (segments : list string) (key : string) (v : value) :
  segments ≠ [] →
  Forall (fun p => p ≠ EmptyString ∧ Str.mem ":" p = false) segments →
  Str.mem ":" key = false →
  Main.convert_key_to_samkemake_format (Str.join ":" segments) v
    = Ok (nested_mapping segments v)
  ∧ Main.convert_key_to_samkemake_format key v = Ok [(key, v)].
Proof.
  intros Hne Hall Hkey. rewrite !convert_key_split. split.
  - rewrite split_join; [done..|]. eapply Forall_impl; [exact Hall|]. by intros p [_ Hp].
  - by rewrite split_no_sep.
Qed.

Lemma C6_unflatten_key_nested_witness :
  Main.convert_key_to_samkemake_format (Str.join ":" ["a"; "b"; "c"]) (VInt 7)
    = Ok (nested_mapping ["a"; "b"; "c"] (VInt 7))
  ∧ Main.convert_key_to_samkemake_format "threads" (VInt 7) = Ok [("threads", VInt 7)].
Proof.
  apply (C6_unflatten_key_nested ["a"; "b"; "c"] "threads" (VInt 7)).
  - done.
  - repeat constructor; done.
  - reflexivity.
Defined.

(** ** Equality and serialisation *)

(** Only an equal str compares equal to a str. *)
Lemma py_eq_str a s : py_eq a (VStr s) = true ↔ a = VStr s.
Proof.
  destruct a; cbn; try (split; [discriminate|by intros [=]]).
  rewrite bool_decide_eq_true. split; [by intros ->|by intros [=]].
Qed.

Lemma serialise_singleton k v :
  Main.serialise (VDict [(k, v)]) = VDict [(k, Main.serialise v)].
Proof. cbn. by rewrite decide_True. Qed.

(** A nested mapping with a str at the leaf is left as it is. *)
Lemma serialise_nested parts s :
  Main.serialise (VDict (nested_mapping parts (VStr s)))
  = VDict (nested_mapping parts (VStr s)).
Proof.
  induction parts as [|p ps IH]; [done|].
  destruct ps as [|q ps].
  - apply serialise_singleton.
  - change (nested_mapping (p :: q :: ps) (VStr s))
      with [(p, VDict (nested_mapping (q :: ps) (VStr s)))].
    by rewrite serialise_singleton, IH.
Qed.

(** ** The argument reconciler *)

Lemma next_named_Ok name options :
  name ∈ names options → ∃ op, next_named name options = Ok op ∧ op_name op = name.
Proof.
  unfold names. induction options as [|o os IH]; simpl.
  - by intros ?%elem_of_nil.
  - intros [Heq|Hin]%elem_of_cons.
    + exists o. by rewrite decide_True.
    + destruct (decide (op_name o = name)) as [Hn|Hn]; [by exists o|]. by apply IH.
Qed.

Lemma next_named_name name options op :
  next_named name options = Ok op → op_name op = name ∧ name ∈ names options.
Proof.
  unfold names. induction options as [|o os IH]; simpl; [done|].
  destruct (decide (op_name o = name)) as [Hn|Hn].
  - intros [= <-]. split; [done|]. apply elem_of_cons. by left.
  - intros [Hop Hin]%IH. split; [done|]. apply elem_of_cons. by right.
Qed.

Lemma startswith_dash_nonempty arg : Str.startswith "-" arg = true → arg ≠ EmptyString.
Proof. by destruct arg. Qed.

Lemma is_flag_true options arg :
  is_flag options arg = true ↔
  Str.startswith "-" arg = true ∧ Str.lstrip "-" arg ∈ names options.
Proof.
  unfold is_flag. rewrite andb_true_iff, bool_decide_eq_true. done.
Qed.

Lemma is_flag_truthy options arg : is_flag options arg = true → truthy (Some arg) = true.
Proof.
  intros [Hs _]%is_flag_true. apply startswith_dash_nonempty in Hs.
  unfold truthy. by rewrite bool_decide_false.
Qed.

(** What [override] appends: under a key with the delimiter, the mapping
    that the codec builds; otherwise the name with the value. *)
Lemma override_spec name op arg :
  override name op arg
  = Ok (if Str.mem ":" (op_original_key op)
        then nested_mapping (Str.split ":" (op_original_key op)) (VStr arg)
        else [(name, VStr arg)]).
Proof.
  unfold override. destruct (Str.mem ":" (op_original_key op)) eqn:Hmem; [|done].
  rewrite convert_key_split, bind_Ok.
  pose proof (mem_split_single _ _ Hmem) as Hlen.
  destruct (Str.split ":" (op_original_key op)) as [|p [|q ps]]; simpl in Hlen; [lia..|].
  change (nested_mapping (p :: q :: ps) (VStr arg))
    with [(p, VDict (nested_mapping (q :: ps) (VStr arg)))].
  cbn [Dict.keys fmap list_fmap fst]. unfold Dict.getitem. rewrite get_singleton, bind_Ok.
  by rewrite serialise_nested.
Qed.

Lemma parse_step_extend options f p c arg :
  parse_step options {| flag := f; parsed := p; config := c |} arg
  = st ← parse_step options {| flag := f; parsed := []; config := [] |} arg;
    Ok (extend p c st).
Proof.
  unfold parse_step, extend. cbn [flag parsed config].
  destruct (truthy f).
  - destruct (next_named _ options) as [op|e]; [|done]. rewrite !bind_Ok.
    cbn [serialise]. destruct (py_eq (op_default op) (VStr arg)).
    + cbn. by rewrite !app_nil_r.
    + rewrite override_spec, !bind_Ok. cbn. by rewrite app_nil_r.
  - destruct (is_flag options arg); cbn; by rewrite ?app_nil_r.
Qed.

Lemma loop_extend options args f p c :
  for_each (parse_step options) args {| flag := f; parsed := p; config := c |}
  = st ← for_each (parse_step options) args {| flag := f; parsed := []; config := [] |};
    Ok (extend p c st).
Proof.
  revert f p c. induction args as [|arg args IH]; intros f p c.
  - cbn. unfold extend. cbn. by rewrite !app_nil_r.
  - rewrite !for_each_cons, parse_step_extend.
    destruct (parse_step options {| flag := f; parsed := []; config := [] |} arg)
      as [[f1 p1 c1]|e]; [|done].
    rewrite !bind_Ok. unfold extend at 1. cbn [flag parsed config].
    rewrite (IH f1 (p ++ p1) (c ++ c1)), (IH f1 p1 c1).
    destruct (for_each (parse_step options) args _) as [[f2 p2 c2]|e]; [|done].
    rewrite !bind_Ok. unfold extend. cbn. by rewrite !app_assoc.
Qed.

Lemma parse_step_total options st arg :
  flag_ok options st →
  ∃ st', parse_step options st arg = Ok st' ∧ flag_ok options st'.
Proof.
  intros Hok. unfold parse_step. destruct st as [fl p c]. cbn [flag parsed config].
  destruct (truthy fl) eqn:Htruthy.
  - destruct fl as [f|]; [|done].
    specialize (Hok f eq_refl). apply is_flag_true in Hok as [_ Hin].
    apply next_named_Ok in Hin as (op & Hop & _). cbn [default from_option id].
    rewrite Hop, bind_Ok. cbn [serialise].
    destruct (py_eq (op_default op) (VStr arg)).
    + eexists; split; [done|]. by intros f' [=].
    + rewrite override_spec, bind_Ok. eexists; split; [done|]. by intros f' [=].
  - destruct (is_flag options arg) eqn:Hflag.
    + eexists; split; [done|]. by intros f' [= <-].
    + eexists; split; [done|]. exact Hok.
Qed.

Lemma loop_total options args st :
  flag_ok options st →
  ∃ st', for_each (parse_step options) args st = Ok st' ∧ flag_ok options st'.
Proof.
  revert st. induction args as [|arg args IH]; intros st Hok.
  - by exists st.
  - destruct (parse_step_total options st arg Hok) as (st1 & Hst1 & Hok1).
    rewrite for_each_cons, Hst1, bind_Ok. by apply IH.
Qed.

Lemma init_ok options : flag_ok options init.
Proof. by intros f [=]. Qed.

(** [parse_config_args] raises on no input. *)
Lemma parse_config_args_total args options :
  ∃ p c, parse_config_args args options = Ok (p, c).
Proof.
  unfold parse_config_args.
  destruct (loop_total options args init (init_ok options)) as (st & Hst & _).
  rewrite Hst. by eexists _, _.
Qed.

(** Reading [pre] and then [rest], when [pre] leaves no flag pending, is
    reading each on its own. *)
Lemma parse_config_args_app options pre rest :
  pending options pre = None →
  parse_config_args (pre ++ rest) options
  = '(p1, c1) ← parse_config_args pre options;
    '(p2, c2) ← parse_config_args rest options;
    Ok (p1 ++ p2, c1 ++ c2).
Proof.
  unfold pending, parse_config_args. rewrite for_each_app.
  destruct (for_each (parse_step options) pre init) as [[f1 p1 c1]|e]; [|done].
  cbn [flag]. intros ->. rewrite !bind_Ok. cbn [parsed config].
  rewrite loop_extend. fold init.
  destruct (for_each (parse_step options) rest init) as [[f2 p2 c2]|e]; done.
Qed.

(** The three kinds of step. *)
Lemma parse_step_pass options p c arg :
  is_flag options arg = false →
  parse_step options {| flag := None; parsed := p; config := c |} arg
  = Ok {| flag := None; parsed := p ++ [arg]; config := c |}.
Proof. intros Hflag. unfold parse_step. cbn [flag truthy parsed config]. by rewrite Hflag. Qed.

Lemma parse_step_flag options p c arg :
  is_flag options arg = true →
  parse_step options {| flag := None; parsed := p; config := c |} arg
  = Ok {| flag := Some arg; parsed := p; config := c |}.
Proof. intros Hflag. unfold parse_step. cbn [flag truthy parsed config]. by rewrite Hflag. Qed.

Lemma parse_step_value options f p c v op :
  Str.startswith "-" f = true →
  next_named (Str.lstrip "-" f) options = Ok op →
  parse_step options {| flag := Some f; parsed := p; config := c |} v
  = Ok {| flag := None; parsed := p;
          config := if py_eq (op_default op) (VStr v) then c else c ++ [entry_of op v] |}.
Proof.
  intros Hdash Hop. pose proof (next_named_name _ _ _ Hop) as [Hname Hin].
  assert (is_flag options f = true) as Hflag by by apply is_flag_true.
  unfold parse_step. cbn [flag parsed config].
  rewrite (is_flag_truthy _ _ Hflag). cbn [default from_option id].
  rewrite Hop, bind_Ok. cbn [serialise].
  destruct (py_eq (op_default op) (VStr v)); [done|].
  unfold entry_of. by rewrite override_spec, bind_Ok, Hname.
Qed.

(** A token that is no descriptor flag, read with no flag pending, goes
    to the passthrough list as it is. *)
Lemma parse_config_args_passthrough options arg rest :
  is_flag options arg = false →
  parse_config_args (arg :: rest) options
  = '(p, c) ← parse_config_args rest options; Ok (arg :: p, c).
Proof.
  intros Hflag. unfold parse_config_args, init.
  rewrite for_each_cons, parse_step_pass, bind_Ok, loop_extend by done.
  destruct (for_each (parse_step options) rest _) as [[f2 p2 c2]|e]; done.
Qed.

(** A descriptor flag read with no flag pending, and the token after it:
    the value is dropped when it equals the default, and gives one
    override entry otherwise. *)
Lemma parse_config_args_flag_value options f v rest op :
  Str.startswith "-" f = true →
  next_named (Str.lstrip "-" f) options = Ok op →
  parse_config_args (f :: v :: rest) options
  = '(p, c) ← parse_config_args rest options;
    Ok (p, if py_eq (op_default op) (VStr v) then c else entry_of op v :: c).
Proof.
  intros Hdash Hop. pose proof (next_named_name _ _ _ Hop) as [Hname Hin].
  assert (is_flag options f = true) as Hflag by by apply is_flag_true.
  unfold parse_config_args, init.
  rewrite for_each_cons, parse_step_flag, bind_Ok by done.
  rewrite for_each_cons, (parse_step_value _ _ _ _ _ op), bind_Ok, loop_extend by done.
  destruct (for_each (parse_step options) rest _) as [[f2 p2 c2]|e]; [|done].
  rewrite !bind_Ok. unfold extend. cbn. by destruct (py_eq (op_default op) (VStr v)).
Qed.

(** A descriptor flag that ends the input with no flag pending before it
    leaves the two lists as they were. *)
Lemma parse_config_args_last_flag options f :
  is_flag options f = true → parse_config_args [f] options = Ok ([], []).
Proof.
  intros Hflag. unfold parse_config_args, init. cbn [for_each].
  by rewrite parse_step_flag.
Qed.

(** ** The claims on the reconciler *)









Lemma parse_bound_step_str options f (p : list string) c arg :
  parse_bound_step options {| bflag := f; bparsed := VStr <$> p; bconfig := c |} (VStr arg)
  = st ← parse_step options {| flag := f; parsed := p; config := c |} arg;
    Ok {| bflag := flag st; bparsed := VStr <$> parsed st; bconfig := config st |}.
Proof.
  unfold parse_bound_step, parse_step. cbn [bflag bparsed bconfig flag parsed config].
  destruct (truthy f).
  - destruct (next_named _ options) as [op|e]; [|done]. rewrite !bind_Ok.
    cbn [serialise serialised_in_place].
    destruct (py_eq (op_default op) (VStr arg)); [done|].
    change (override_bound (Str.lstrip "-" (default EmptyString f)) op (VStr arg))
      with (override (Str.lstrip "-" (default EmptyString f)) op arg).
    by destruct (override _ op arg).
  - destruct (is_flag options arg); rewrite !bind_Ok; cbn [flag parsed config]; [done|].
    by rewrite fmap_app.
Qed.

(** On str tokens the loop over bound values is [parse_config_args]. *)
Lemma parse_config_args_bound_str options (args : list string) :
  parse_config_args_bound (VStr <$> args) options
  = '(p, c) ← parse_config_args args options; Ok (VStr <$> (p : list string), c).
Proof.
  unfold parse_config_args_bound, parse_config_args, binit, init.
  assert (∀ f (p : list string) c,
    for_each (parse_bound_step options) (VStr <$> args)
      {| bflag := f; bparsed := VStr <$> p; bconfig := c |}
    = st ← for_each (parse_step options) args {| flag := f; parsed := p; config := c |};
      Ok {| bflag := flag st; bparsed := VStr <$> parsed st; bconfig := config st |}) as H.
  { induction args as [|arg args IH]; intros f p c; [done|].
    rewrite fmap_cons, !for_each_cons, parse_bound_step_str.
    destruct (parse_step options _ arg) as [[f1 p1 c1]|e]; [|done].
    rewrite !bind_Ok. cbn [flag parsed config]. apply IH. }
  rewrite (H None [] [] : for_each (parse_bound_step options) (VStr <$> args)
                           {| bflag := None; bparsed := []; bconfig := [] |} = _).
  destruct (for_each (parse_step options) args _) as [[f p c]|e]; done.
Qed.



(** A value of the type of the default that differs from it gives the
    one entry. *)
Example changed_value_gives_one_entry :
  parse_config_args_bound [VStr "--a_b"; VInt 2; VStr "target"] [a_b]
  = Ok ([VStr "target"], [[("a", VDict [("b", VInt 2)])]]).
Proof. reflexivity. Qed.

(** The general part of the default suppression holds: a value equal to
    the default gives no entry, any other value exactly one. *)
Lemma default_suppression options pre f v post op :
  pending options pre = None →
  Str.startswith "-" f = true →
  next_named (Str.lstrip "-" f) options = Ok op →
  ∃ p1 c1 p2 c2,
    parse_config_args pre options = Ok (p1, c1)
    ∧ parse_config_args post options = Ok (p2, c2)
    ∧ parse_config_args (pre ++ f :: v :: post) options
      = Ok (p1 ++ p2,
            c1 ++ (if py_eq (op_default op) (VStr v) then [] else [entry_of op v]) ++ c2).
Proof.
  intros Hpre Hdash Hop.
  destruct (parse_config_args_total pre options) as (p1 & c1 & H1).
  destruct (parse_config_args_total post options) as (p2 & c2 & H2).
  exists p1, c1, p2, c2. split_and!; [done..|].
  rewrite parse_config_args_app, H1, bind_Ok by done.
  rewrite (parse_config_args_flag_value _ _ _ _ op), H2, !bind_Ok by done.
  by destruct (py_eq (op_default op) (VStr v)).
Qed.

(** C3, as stated, fails: a flag that matches no descriptor is taken as
    the value of the descriptor flag before it. *)
Lemma C3_counterexample :
  Str.startswith "-" "--dry-run" = true
  ∧ (Str.lstrip "-" "--dry-run" ∉ names [threads])
  ∧ parse_config_args ["--threads"; "--dry-run"; "target"] [threads]
    = Ok (["target"], [[("threads", VStr "--dry-run")]])
  ∧ ("--dry-run" ∉ ["target"]).
Proof.
  split_and!; [reflexivity| |reflexivity|].
  - intros [=]%list_elem_of_singleton.
  - intros [=]%list_elem_of_singleton.
Qed.

(** C3, amended: a flag that matches no descriptor and is read with no
    descriptor flag pending goes to the passthrough list unmodified and
    gives no override, wherever it stands, the end of the input
    included: the result is the one of the tokens before it, the flag,
    and the one of the tokens after it.  The token after it, when there
    is one, follows it in the passthrough list, unmodified and without an
    override, unless it is itself a descriptor flag. *)
Theorem C3_passthrough_when_not_pending options pre f rest :
  pending options pre = None →
  Str.startswith "-" f = true →
  Str.lstrip "-" f ∉ names options →
  ∃ p1 c1 p c,
    parse_config_args pre options = Ok (p1, c1)
    ∧ parse_config_args rest options = Ok (p, c)
    ∧ parse_config_args (pre ++ f :: rest) options = Ok (p1 ++ f :: p, c1 ++ c)
    ∧ (rest = [] → p = [] ∧ c = [])
    ∧ (∀ v post, rest = v :: post → is_flag options v = false →
         ∃ p2, parse_config_args post options = Ok (p2, c) ∧ p = v :: p2).
Proof.
  intros Hpre Hdash Hnot.
  assert (is_flag options f = false) as Hf.
  { apply not_true_is_false. by intros [_ ?]%is_flag_true. }
  destruct (parse_config_args_total pre options) as (p1 & c1 & H1).
  destruct (parse_config_args_total rest options) as (p & c & H).
  exists p1, c1, p, c. split_and!; [done..| | |].
  - rewrite parse_config_args_app, H1, bind_Ok by done.
    by rewrite parse_config_args_passthrough, H, !bind_Ok by done.
  - intros ->. by injection H as <- <-.
  - intros v post -> Hv. rewrite parse_config_args_passthrough in H by done.
    destruct (parse_config_args_total post options) as (p2 & c2 & H2).
    rewrite H2, bind_Ok in H. injection H as <- <-. by exists p2.
Qed.

Lemma C3_passthrough_when_not_pending_witness :
  ∃ p1 c1 p c,
    parse_config_args ["--threads"; "4"] [threads] = Ok (p1, c1)
    ∧ parse_config_args ["--quiet"; "target"] [threads] = Ok (p, c)
    ∧ parse_config_args (["--threads"; "4"] ++ "--dry-run" :: ["--quiet"; "target"])
        [threads] = Ok (p1 ++ "--dry-run" :: p, c1 ++ c)
    ∧ (["--quiet"; "target"] = [] → p = [] ∧ c = [])
    ∧ (∀ v post, ["--quiet"; "target"] = v :: post → is_flag [threads] v = false →
         ∃ p2, parse_config_args post [threads] = Ok (p2, c) ∧ p = v :: p2).
Proof.
  apply (C3_passthrough_when_not_pending [threads] ["--threads"; "4"]
           "--dry-run" ["--quiet"; "target"]).
  - reflexivity.
  - reflexivity.
  - intros [=]%list_elem_of_singleton.
Defined.

(** The flag as the last token. *)
Example passthrough_flag_at_the_end :
  parse_config_args ["--threads"; "4"; "--dry-run"] [threads]
  = Ok (["--dry-run"], [[("threads", VStr "4")]]).
Proof. reflexivity. Qed.

(** C4: when a changed value is accepted for a descriptor, the override
    entry is, for an original key with the delimiter, the single top-level
    key of the nested mapping that the codec builds, mapped to its nested
    value, and otherwise the name of the descriptor mapped to the value;
    [--a_b 2 target] yields passthrough [["target"]] and the override
    [{"a": {"b": "2"}}]. *)
Theorem C4_override_entry options pre f v post op :
  pending options pre = None →
  Str.startswith "-" f = true →
  next_named (Str.lstrip "-" f) options = Ok op →
  py_eq (op_default op) (VStr v) = false →
  (∃ p1 c1 p2 c2 entry,
     parse_config_args pre options = Ok (p1, c1)
     ∧ parse_config_args post options = Ok (p2, c2)
     ∧ parse_config_args (pre ++ f :: v :: post) options
       = Ok (p1 ++ p2, c1 ++ entry :: c2)
     ∧ (Str.mem ":" (op_original_key op) = true →
        ∃ k sub,
          convert_key_to_samkemake_format (op_original_key op) (VStr v) = Ok [(k, sub)]
          ∧ entry = [(k, sub)])
     ∧ (Str.mem ":" (op_original_key op) = false → entry = [(op_name op, VStr v)]))
  ∧ parse_config_args ["--a_b"; "2"; "target"] [a_b]
    = Ok (["target"], [[("a", VDict [("b", VStr "2")])]]).
Proof.
  intros Hpre Hdash Hop Hneq. split; [|reflexivity].
  destruct (default_suppression options pre f v post op Hpre Hdash Hop)
    as (p1 & c1 & p2 & c2 & H1 & H2 & H).
  rewrite Hneq in H. exists p1, c1, p2, c2, (entry_of op v).
  split_and!; [done..| |].
  - intros Hmem. unfold entry_of. rewrite Hmem, convert_key_split.
    pose proof (mem_split_single _ _ Hmem) as Hlen.
    destruct (Str.split ":" (op_original_key op)) as [|k [|q ps]]; simpl in Hlen; [lia..|].
    by exists k, (VDict (nested_mapping (q :: ps) (VStr v))).
  - intros Hmem. unfold entry_of. by rewrite Hmem.
Qed.

Lemma C4_override_entry_witness :
  (∃ p1 c1 p2 c2 entry,
     parse_config_args ["--dry-run"] [a_b; threads] = Ok (p1, c1)
     ∧ parse_config_args ["--threads"; "8"] [a_b; threads] = Ok (p2, c2)
     ∧ parse_config_args (["--dry-run"] ++ "--a_b" :: "2" :: ["--threads"; "8"])
         [a_b; threads] = Ok (p1 ++ p2, c1 ++ entry :: c2)
     ∧ (Str.mem ":" (op_original_key a_b) = true →
        ∃ k sub,
          convert_key_to_samkemake_format (op_original_key a_b) (VStr "2") = Ok [(k, sub)]
          ∧ entry = [(k, sub)])
     ∧ (Str.mem ":" (op_original_key a_b) = false → entry = [(op_name a_b, VStr "2")]))
  ∧ parse_config_args ["--a_b"; "2"; "target"] [a_b]
    = Ok (["target"], [[("a", VDict [("b", VStr "2")])]]).
Proof.
  apply (C4_override_entry [a_b; threads] ["--dry-run"] "--a_b" "2" ["--threads"; "8"] a_b);
    reflexivity.
Defined.

(** C10, as stated, fails: a descriptor flag that ends the input is the
    value of the descriptor flag before it, and so is part of an
    override. *)
Lemma C10_counterexample :
  is_flag [threads] "--threads" = true
  ∧ parse_config_args ["--threads"; "--threads"] [threads]
    = Ok ([], [[("threads", VStr "--threads")]])
  ∧ parse_config_args ["--threads"] [threads] = Ok ([], []).
Proof. split_and!; reflexivity. Qed.

(** C10, amended: a descriptor flag that ends the input and is not itself
    the value of a pending descriptor flag is dropped without an error:
    the result is the one of the input without it. *)
Theorem C10_trailing_flag_dropped options args f :
  pending options args = None →
  is_flag options f = true →
  ∃ p c,
    parse_config_args args options = Ok (p, c)
    ∧ parse_config_args (args ++ [f]) options = Ok (p, c).
Proof.
  intros Hpre Hflag.
  destruct (parse_config_args_total args options) as (p & c & H).
  exists p, c. split; [done|].
  rewrite parse_config_args_app, H, bind_Ok, parse_config_args_last_flag, bind_Ok by done.
  by rewrite !app_nil_r.
Qed.

Lemma C10_trailing_flag_dropped_witness :
  ∃ p c,
    parse_config_args ["--a_b"; "2"; "target"] [a_b] = Ok (p, c)
    ∧ parse_config_args (["--a_b"; "2"; "target"] ++ ["--a_b"]) [a_b] = Ok (p, c).
Proof.
  apply (C10_trailing_flag_dropped [a_b] ["--a_b"; "2"; "target"] "--a_b"); reflexivity.
Defined.

(** ** The option synthesizer *)

Lemma for_each_collect {A B} (g : A → result B) xs acc :
  match for_each (fun options x => o ← g x; Ok (options ++ [o])) xs acc with
  | Ok res => ∃ os, res = acc ++ os ∧ Forall2 (fun x o => g x = Ok o) xs os
  | Raise e => ∃ x, x ∈ xs ∧ g x = Raise e
  end.
Proof.
  revert acc. induction xs as [|x xs IH]; intros acc.
  - exists []. by rewrite app_nil_r.
  - rewrite for_each_cons. destruct (g x) as [o|e] eqn:Hg.
    + rewrite !bind_Ok. specialize (IH (acc ++ [o])).
      destruct (for_each _ xs (acc ++ [o])) as [res|e].
      * destruct IH as (os & -> & Hos). exists (o :: os).
        rewrite <- app_assoc. split; [done|]. by constructor.
      * destruct IH as (y & Hy & Hgy). exists y. split; [|done].
        apply elem_of_cons. by right.
    + rewrite bind_Raise. exists x. split; [|done]. apply elem_of_cons. by left.
Qed.

Lemma build_option_raises flat_config flat_snk_annotations op e :
  build_option flat_config flat_snk_annotations op = Raise e →
  e = KeyError ∨ e = TypeError ∨ e = AttributeError.
Proof.
  unfold build_option, Dict.getitem.
  destruct (Dict.get op flat_config) as [dflt|]; [|intros [= <-]; by left].
  rewrite bind_Ok.
  destruct (replace_method _ _ _) as [name|e'] eqn:Hreplace; [done|].
  rewrite bind_Raise. intros [= <-].
  destruct (Dict.get_default _ _ flat_snk_annotations); cbn in Hreplace;
    try discriminate; injection Hreplace as <-; auto.
Qed.

Lemma build_option_original_key flat_config flat_snk_annotations op o :
  build_option flat_config flat_snk_annotations op = Ok o → op_original_key o = op.
Proof.
  unfold build_option.
  destruct (Dict.getitem op flat_config) as [dflt|]; [|done]. rewrite bind_Ok.
  destruct (replace_method _ _ _) as [name|]; [|done]. by intros [= <-].
Qed.

Lemma build_options_spec flat_config flat_snk_annotations :
  match build_options flat_config flat_snk_annotations with
  | Ok options =>
      Forall2 (fun op o => build_option flat_config flat_snk_annotations op = Ok o)
        (Dict.keys flat_config) options
  | Raise e => e = KeyError ∨ e = TypeError ∨ e = AttributeError
  end.
Proof.
  unfold build_options.
  pose proof (for_each_collect (build_option flat_config flat_snk_annotations)
                (Dict.keys flat_config) []) as H.
  destruct (for_each _ _ _) as [res|e].
  - by destruct H as (os & -> & Hos).
  - destruct H as (x & _ & Hx). by eapply build_option_raises.
Qed.

(** C2, as stated, fails: the keys [a_b] and [a:b] collapse to the flag
    name [a_b]; both descriptors are returned and nothing is raised. *)
Lemma C2_counterexample :
  let snakemake_config := [("a_b", VInt 1); ("a", VDict [("b", VInt 2)])] in
  ¬ ((∃ options, build_dynamic_cli_options snakemake_config [] = Ok options
                 ∧ NoDup (names options))
     ∨ build_dynamic_cli_options snakemake_config [] = Raise DuplicateOptionError).
Proof.
  intros cfg [(options & Hbuild & Hnodup)|Hraise].
  - vm_compute in Hbuild. injection Hbuild as <-. cbn in Hnodup.
    apply NoDup_cons in Hnodup as [Hnotin _]. apply Hnotin. by apply list_elem_of_singleton.
  - vm_compute in Hraise. discriminate.
Qed.

(** C2, amended: [build_dynamic_cli_options] has no duplicate check and
    raises no [DuplicateOptionError]; when it returns, there is one
    descriptor per flattened key, in order, and the original keys are
    pairwise distinct, so that keys collapsing to one name are both kept,
    under equal names. *)
Theorem C2_one_descriptor_per_key snakemake_config annotations :
  match build_dynamic_cli_options snakemake_config annotations with
  | Ok options =>
      map op_original_key options = Dict.keys (flatten snakemake_config)
      ∧ NoDup (map op_original_key options)
  | Raise e => e ≠ DuplicateOptionError
  end.
Proof.
  unfold build_dynamic_cli_options.
  pose proof (build_options_spec (flatten snakemake_config) (flatten annotations)) as H.
  destruct (build_options _ _) as [options|e].
  - assert (map op_original_key options = Dict.keys (flatten snakemake_config)) as Heq.
    { induction H as [|op o ops os Ho _ IH]; [done|]. cbn. f_equal; [|done].
      by eapply build_option_original_key. }
    split; [done|]. rewrite Heq. apply NoDup_keys_of_items.
  - by destruct H as [->| [->| ->]].
Qed.

(** C5: the name of the descriptor of a flattened key is the annotated
    name when there is one, and otherwise the key with [":"] replaced by
    ["_"], in both cases with its hyphens replaced by underscores; the
    type is the annotated one or the type name of the default, [required]
    is the annotated one or false, [help] the annotated one or the empty
    str.  The configuration [{a: {b: 1}}] gives the one descriptor
    [a_b]. *)
Theorem C5_descriptor_fields flat_config flat_snk_annotations op dflt name :
  Dict.get op flat_config = Some dflt →
  Dict.get (op +:+ ":name") flat_snk_annotations = Some (VStr name)
  ∨ (Dict.get (op +:+ ":name") flat_snk_annotations = None
     ∧ name = Str.replace_char ":" "_" op) →
  (∃ o,
     build_option flat_config flat_snk_annotations op = Ok o
     ∧ op_name o = Str.replace_char "-" "_" name
     ∧ op_original_key o = op
     ∧ op_default o = dflt
     ∧ op_type o = match Dict.get (op +:+ ":type") flat_snk_annotations with
                   | Some t => t
                   | None => VStr (type_name dflt)
                   end
     ∧ op_required o = match Dict.get (op +:+ ":required") flat_snk_annotations with
                       | Some r => r
                       | None => VBool false
                       end
     ∧ op_help o = match Dict.get (op +:+ ":help") flat_snk_annotations with
                   | Some h => h
                   | None => VStr EmptyString
                   end)
  ∧ (∀ options, build_options flat_config flat_snk_annotations = Ok options →
       Forall2 (fun op o => build_option flat_config flat_snk_annotations op = Ok o)
         (Dict.keys flat_config) options)
  ∧ build_dynamic_cli_options [("a", VDict [("b", VInt 1)])] [] = Ok [a_b].
Proof.
  intros Hget Hname. split_and!; [| |reflexivity].
  - unfold build_option, Dict.getitem, Dict.get_default. rewrite Hget, bind_Ok.
    destruct Hname as [->|[-> ->]]; cbn [replace_method]; rewrite bind_Ok;
      eexists; split_and!; reflexivity.
  - intros options Hbuild.
    pose proof (build_options_spec flat_config flat_snk_annotations) as H.
    by rewrite Hbuild in H.
Qed.

Lemma C5_descriptor_fields_witness :
  let flat_config := [("genome-dir:index", VStr "idx")] in
  let flat_snk_annotations := [("genome-dir:index:help", VStr "Index")] in
  (∃ o,
     build_option flat_config flat_snk_annotations "genome-dir:index" = Ok o
     ∧ op_name o = Str.replace_char "-" "_" "genome-dir_index"
     ∧ op_original_key o = "genome-dir:index"
     ∧ op_default o = VStr "idx"
     ∧ op_type o = match Dict.get ("genome-dir:index" +:+ ":type") flat_snk_annotations with
                   | Some t => t
                   | None => VStr (type_name (VStr "idx"))
                   end
     ∧ op_required o
       = match Dict.get ("genome-dir:index" +:+ ":required") flat_snk_annotations with
         | Some r => r
         | None => VBool false
         end
     ∧ op_help o = match Dict.get ("genome-dir:index" +:+ ":help") flat_snk_annotations with
                   | Some h => h
                   | None => VStr EmptyString
                   end)
  ∧ (∀ options, build_options flat_config flat_snk_annotations = Ok options →
       Forall2 (fun op o => build_option flat_config flat_snk_annotations op = Ok o)
         (Dict.keys flat_config) options)
  ∧ build_dynamic_cli_options [("a", VDict [("b", VInt 1)])] [] = Ok [a_b].
Proof.
  apply (C5_descriptor_fields [("genome-dir:index", VStr "idx")]
           [("genome-dir:index:help", VStr "Index")] "genome-dir:index" (VStr "idx")
           "genome-dir_index").
  - reflexivity.
  - right. split; reflexivity.
Defined.

(** ** Resource staging *)

(** A name does not exist when it is the name of an entry and nothing
    or a dangling link is there. *)
Lemma exists_false (wd : workdir) n : exists_ wd n = false ↔ absent wd n.
Proof.
  unfold exists_, absent. rewrite orb_false_iff, bool_decide_eq_false. split.
  - intros [Hn H]. split_and!; [intros ?; apply Hn; by left|intros ?; apply Hn; by right|].
    destruct (wd !! n) as [[data|tree|target [referent|]]|]; try done; [right|left]; eauto.
  - intros (H1 & H2 & Hold). split; [by intros [?|?]|]. by destruct Hold as [->|[target ->]].
Qed.

Lemma exists_same_lookup (wd wd' : workdir) n :
  wd' !! n = wd !! n → exists_ wd' n = exists_ wd n.
Proof. unfold exists_. by intros ->. Qed.

Lemma exists_absent (wd : workdir) n :
  no_dangling_link wd → exists_ wd n = false → wd !! n = None.
Proof. intros Hclean (_ & _ & [H|[target H]])%exists_false; [done|]. by apply Hclean in H. Qed.

Lemma exists_present (wd : workdir) n nd :
  no_dangling_link wd → wd !! n = Some nd → exists_ wd n = true.
Proof.
  intros Hclean Hn. apply not_false_iff_true.
  intros (_ & _ & [H|[target H]])%exists_false; [congruence|]. by apply Hclean in H.
Qed.

(** The loop of [main.py] is the one of [run.py] without links. *)
Lemma Main_stage_eq pipeline resources wd copied :
  Main.stage pipeline resources wd copied = RunApp.stage pipeline false resources wd copied.
Proof.
  revert wd copied. induction resources as [|r rest IH]; intros wd copied; [done|].
  cbn [Main.stage RunApp.stage]. destruct (negb _); [|done].
  change (Main.copy_resource pipeline (path_str r) (path_name r) wd)
    with (RunApp.copy_resource pipeline (path_str r) (path_name r) false wd).
  by destruct (RunApp.copy_resource _ _ _ _ _).
Qed.

(** A copy to a destination that does not exist, when it succeeds, puts
    the entry owed there and touches nothing else; a link is made only at
    an absent name. *)
Lemma copy_resource_staged pipeline symlink src dst wd wd' :
  exists_ wd dst = false →
  RunApp.copy_resource pipeline src dst symlink wd = Ok wd' →
  ∃ nd, staged_entry pipeline symlink src (wd !! dst) = Some nd
        ∧ wd' = <[dst := nd]> wd
        ∧ (symlink = true → wd !! dst = None).
Proof.
  intros (_ & _ & Hold)%exists_false. unfold RunApp.copy_resource, staged_entry.
  destruct symlink.
  - destruct Hold as [->|[target ->]]; [|done]. intros [= <-]. by eexists.
  - destruct (pipeline src) as [[data|tree]|]; [| |done].
    + destruct Hold as [->|[target ->]]; intros [= <-]; by eexists.
    + destruct Hold as [->|[target ->]]; [|done]. intros [= <-]. by eexists.
Qed.

(** The entry owed exists, but for a link to a missing source. *)
Lemma staged_entry_dangling pipeline symlink src old nd :
  staged_entry pipeline symlink src old = Some nd →
  (∃ target, nd = Symlink target None) →
  symlink = true ∧ pipeline src = None.
Proof.
  unfold staged_entry. intros Hnd [target ->]. destruct symlink.
  - by injection Hnd as <- ->.
  - destruct (pipeline src) as [[data|tree]|]; [|done..]. by destruct old as [[]|].
Qed.

(** Without links, the entry owed is never a link to a directory. *)
Lemma staged_entry_no_link_to_directory pipeline src old target tree :
  staged_entry pipeline false src old ≠ Some (Symlink target (Some (SrcDir tree))).
Proof.
  unfold staged_entry. destruct (pipeline src) as [[data|tree']|]; [|done..].
  by destruct old as [[]|].
Qed.

Lemma first_named_skip n r r' resources :
  path_name r' ≠ n → first_named n r resources → first_named n r (r' :: resources).
Proof.
  intros Hne (before & after & -> & Hname & Hbefore).
  exists (r' :: before), after. split_and!; [done..|]. by constructor.
Qed.

(** The staging loop: the names it appends did not exist, each holds the
    entry owed for the first resource of that name, the other names are
    as they were, and a loop that ends well has appended the name of
    every resource that did not exist. *)
Lemma stage_spec pipeline symlink resources wd copied0 wd1 copied1 err :
  RunApp.stage pipeline symlink resources wd copied0 = (wd1, copied1, err) →
  ∃ new,
    copied1 = copied0 ++ new
    ∧ (∀ n, n ∈ new →
         exists_ wd n = false
         ∧ (symlink = true → wd !! n = None)
         ∧ ∃ r nd, first_named n r resources
             ∧ staged_entry pipeline symlink (path_str r) (wd !! n) = Some nd
             ∧ wd1 !! n = Some nd)
    ∧ (∀ n, n ∉ new → wd1 !! n = wd !! n)
    ∧ (err = None → ∀ r, r ∈ resources → exists_ wd (path_name r) = false →
         path_name r ∈ new).
Proof.
  revert wd copied0.
  induction resources as [|r rest IH]; intros wd copied0; cbn [RunApp.stage].
  - intros [= <- <- <-]. exists []. rewrite app_nil_r.
    split_and!; [done| |done|].
    + by intros n ?%elem_of_nil.
    + by intros _ r ?%elem_of_nil.
  - destruct (exists_ wd (path_name r)) eqn:Hex; cbn [negb].
    + intros (new & -> & Hnew & Hframe & Hall)%IH. exists new.
      split_and!; [done| |done|].
      * intros n (Hn & Hsym & r' & nd & Hfirst & Hentry & Hn1)%Hnew.
        split_and!; [done..|]. exists r', nd. split_and!; [|done..].
        apply first_named_skip; [|done]. intros Heq. congruence.
      * intros Herr r' [->|Hr']%elem_of_cons Hr'ex; [congruence|]. by apply Hall.
    + destruct (RunApp.copy_resource pipeline (path_str r) (path_name r) symlink wd)
        as [wd'|e] eqn:Hcopy.
      * destruct (copy_resource_staged _ _ _ _ _ _ Hex Hcopy) as (nd0 & Hentry0 & -> & Hsym0).
        intros (new & -> & Hnew & Hframe & Hall)%IH.
        assert (path_name r ∉ new) as Hfresh.
        { intros (Hn & Hsym & _)%Hnew.
          destruct (staged_entry_dangling _ _ _ _ _ Hentry0) as [-> _].
          - apply exists_false in Hn as (_ & _ & [Hn|[target Hn]]);
              rewrite lookup_insert_eq in Hn; [done|]. injection Hn as ->. by eexists.
          - specialize (Hsym eq_refl). by rewrite lookup_insert_eq in Hsym. }
        exists (path_name r :: new). rewrite <- app_assoc.
        split_and!; [done| | |].
        -- intros n [->|Hn]%elem_of_cons.
           ++ split_and!; [done..|]. exists r, nd0. split_and!; [|done|].
              ** by exists [], rest.
              ** by rewrite (Hframe _ Hfresh), lookup_insert_eq.
           ++ assert (path_name r ≠ n) as Hne by (by intros <-).
              destruct (Hnew n Hn) as (Hex' & Hsym & r' & nd & Hfirst & Hentry & Hn1).
              rewrite lookup_insert_ne in Hsym, Hentry by done.
              split_and!; [|done|].
              ** rewrite <- Hex'. symmetry. apply exists_same_lookup.
                 by rewrite lookup_insert_ne.
              ** exists r', nd. split_and!; [|done..]. by apply first_named_skip.
        -- intros n [Hne Hn]%not_elem_of_cons.
           by rewrite (Hframe _ Hn), lookup_insert_ne.
        -- intros Herr r' [->|Hr']%elem_of_cons Hr'ex; [apply elem_of_cons; by left|].
           apply elem_of_cons. destruct (decide (path_name r' = path_name r)) as [Heq|Hne];
             [by left|right].
           apply Hall; [done..|]. rewrite <- Hr'ex. apply exists_same_lookup.
           by rewrite lookup_insert_ne.
      * intros [= <- <- <-]. exists []. rewrite app_nil_r.
        split_and!; [done| |done|done].
        by intros n ?%elem_of_nil.
Qed.

(** Staging that ends well keeps its contract. *)
Lemma stage_contract pipeline symlink resources wd wd1 copied :
  RunApp.stage pipeline symlink resources wd [] = (wd1, copied, None) →
  staging_contract pipeline symlink resources wd wd1 copied.
Proof.
  intros (new & Heq & Hnew & Hframe & Hall)%stage_spec. cbn [app] in Heq. subst new.
  split_and!; [|intros n (_ & _ & Hentry)%Hnew; exact Hentry|done].
  intros n. rewrite <- exists_false. split.
  - intros (Hex & _ & r & nd & (before & after & -> & Hname & _) & _)%Hnew.
    split; [|done]. exists r. split; [|done].
    apply elem_of_app. right. apply elem_of_cons. by left.
  - intros [(r & Hr & <-) Hex]. by apply Hall.
Qed.

(** The exceptions that stop staging. *)
Lemma stage_error pipeline symlink resources wd copied0 wd1 copied1 e :
  RunApp.stage pipeline symlink resources wd copied0 = (wd1, copied1, Some e) →
  e = FileNotFoundError ∨ e = FileExistsError.
Proof.
  revert wd copied0.
  induction resources as [|r rest IH]; intros wd copied0; cbn [RunApp.stage]; [done|].
  destruct (negb _); [|by apply IH].
  destruct (RunApp.copy_resource pipeline (path_str r) (path_name r) symlink wd)
    as [wd'|e'] eqn:Hcopy; [by apply IH|].
  intros [= _ _ ->]. revert Hcopy. unfold RunApp.copy_resource.
  destruct symlink; [destruct (wd !! path_name r); intros [= <-]; by right|].
  destruct (pipeline (path_str r)) as [[data|tree]|]; [| |intros [= <-]; by left].
  - by destruct (wd !! path_name r) as [[? | ? | ? [[]|]]|].
  - destruct (wd !! path_name r); intros [= <-]; by right.
Qed.

(** The names that staging lists are proper names. *)
Lemma stage_copied_proper pipeline symlink resources wd wd1 copied err :
  RunApp.stage pipeline symlink resources wd [] = (wd1, copied, err) →
  Forall (fun c => c ≠ EmptyString ∧ c ≠ "..") copied.
Proof.
  intros (new & Heq & Hnew & _)%stage_spec. cbn [app] in Heq. subst new.
  apply Forall_forall. intros c (Hc & _)%Hnew.
  apply exists_false in Hc as (H1 & H2 & _). by split.
Qed.

(** Staging without links leaves no link to a directory under the names
    it lists. *)
Lemma stage_no_link_to_directory pipeline resources wd wd1 copied err :
  RunApp.stage pipeline false resources wd [] = (wd1, copied, err) →
  no_link_to_directory copied wd1.
Proof.
  intros (new & Heq & Hnew & _)%stage_spec. cbn [app] in Heq. subst new.
  intros n target tree (_ & _ & r & nd & _ & Hentry & Hn)%Hnew Hlink.
  rewrite Hn in Hlink. injection Hlink as ->.
  by apply staged_entry_no_link_to_directory in Hentry.
Qed.

(** From a working directory without dangling links, staging without
    links leaves none and fails only on a missing source. *)
Lemma stage_clean pipeline resources wd copied0 wd1 copied1 err :
  no_dangling_link wd →
  RunApp.stage pipeline false resources wd copied0 = (wd1, copied1, err) →
  no_dangling_link wd1 ∧ ∀ e, err = Some e → e = FileNotFoundError.
Proof.
  revert wd copied0.
  induction resources as [|r rest IH]; intros wd copied0 Hclean; cbn [RunApp.stage].
  - by intros [= <- <- <-].
  - destruct (exists_ wd (path_name r)) eqn:Hex; cbn [negb]; [by apply IH|].
    pose proof (exists_absent _ _ Hclean Hex) as Habsent.
    unfold RunApp.copy_resource. rewrite Habsent.
    destruct (pipeline (path_str r)) as [[data|tree]|].
    + apply IH. intros name target.
      destruct (decide (path_name r = name)) as [<-|Hne];
        [by rewrite lookup_insert_eq|by rewrite lookup_insert_ne].
    + apply IH. intros name target.
      destruct (decide (path_name r = name)) as [<-|Hne];
        [by rewrite lookup_insert_eq|by rewrite lookup_insert_ne].
    + intros [= <- <- <-]. split; [done|]. by intros e [= <-].
Qed.

(** From a working directory without dangling links, staging resources
    that are there below the pipeline directory ends well and leaves no
    dangling link. *)
Lemma stage_succeeds pipeline symlink resources wd copied0 :
  no_dangling_link wd →
  (∀ r, r ∈ resources → exists_ wd (path_name r) = false →
     is_Some (pipeline (path_str r))) →
  ∃ wd1 copied1,
    RunApp.stage pipeline symlink resources wd copied0 = (wd1, copied1, None)
    ∧ no_dangling_link wd1.
Proof.
  revert wd copied0.
  induction resources as [|r rest IH]; intros wd copied0 Hclean Hthere; cbn [RunApp.stage].
  - by eexists _, _.
  - assert (∀ nd, (∀ target, nd ≠ Symlink target None) →
              ∃ wd1 copied1,
                RunApp.stage pipeline symlink rest (<[path_name r := nd]> wd)
                  (copied0 ++ [path_name r]) = (wd1, copied1, None)
                ∧ no_dangling_link wd1) as Hnext.
    { intros nd Hnd. apply IH.
      - intros name target. destruct (decide (path_name r = name)) as [<-|Hne].
        + rewrite lookup_insert_eq. intros [= ->]. by eapply Hnd.
        + rewrite lookup_insert_ne by done. apply Hclean.
      - intros r' Hr' Hex'. apply Hthere; [apply elem_of_cons; by right|].
        rewrite <- Hex'. symmetry. apply exists_same_lookup.
        apply lookup_insert_ne. intros Heq. rewrite <- Heq in Hex'.
        apply exists_false in Hex' as (_ & _ & [H|[target H]]);
          rewrite lookup_insert_eq in H; [done|]. injection H as ->. by eapply Hnd. }
    destruct (exists_ wd (path_name r)) eqn:Hex; cbn [negb].
    + apply IH; [done|]. intros r' Hr'. apply Hthere. apply elem_of_cons. by right.
    + pose proof (exists_absent _ _ Hclean Hex) as Habsent.
      destruct (Hthere r) as [src Hsrc]; [apply elem_of_cons; by left|done|].
      unfold RunApp.copy_resource. rewrite Habsent, Hsrc.
      destruct symlink; [|destruct src as [data|tree]]; by apply Hnext.
Qed.

(** The cleanup loop removes the names of its list that exist and
    nothing else. *)
Lemma cleanup_lookup copied (wd : workdir) n :
  cleanup_loop copied wd !! n
  = if bool_decide (n ∈ copied) && exists_ wd n then None else wd !! n.
Proof.
  unfold cleanup_loop. revert wd.
  induction copied as [|c copied IH]; intros wd; cbn [fold_left].
  - by rewrite bool_decide_false by apply not_elem_of_nil.
  - rewrite IH. destruct (decide (n = c)) as [->|Hne].
    + rewrite (bool_decide_true (c ∈ c :: copied)) by (apply elem_of_cons; by left).
      cbn [andb]. destruct (exists_ wd c) eqn:Hex.
      * rewrite lookup_delete_eq. by destruct (_ && _).
      * rewrite Hex, andb_false_r. done.
    + assert (bool_decide (n ∈ c :: copied) = bool_decide (n ∈ copied)) as ->.
      { apply bool_decide_ext. rewrite elem_of_cons. split; [by intros [?|?]|by right]. }
      destruct (exists_ wd c); [|done].
      rewrite (exists_same_lookup wd (delete c wd)), lookup_delete_ne; [done..|].
      by rewrite lookup_delete_ne.
Qed.


(** Removing a staged resource that exists: [run.py] always can,
    [main.py] unless the name holds a link to a directory. *)
Lemma RunApp_remove_resource_exists (wd : workdir) c :
  c ≠ EmptyString → c ≠ ".." → exists_ wd c = true →
  RunApp.remove_resource c wd = (delete c wd, Normal).
Proof.
  intros H1 H2. unfold exists_, RunApp.remove_resource, is_symlink, is_dir, rmtree, remove.
  rewrite bool_decide_false by by intros [?|?]. cbn [orb].
  by destruct (wd !! c) as [[data|tree|target [[data|tree]|]]|].
Qed.

Lemma Main_remove_resource_exists (wd : workdir) c :
  c ≠ EmptyString → c ≠ ".." → exists_ wd c = true →
  (∀ target tree, wd !! c ≠ Some (Symlink target (Some (SrcDir tree)))) →
  Main.remove_resource c wd = (delete c wd, Normal).
Proof.
  intros H1 H2. unfold exists_, Main.remove_resource, is_dir, rmtree, remove.
  rewrite bool_decide_false by by intros [?|?]. cbn [orb].
  destruct (wd !! c) as [[data|tree|target [[data|tree]|]]|]; try done.
  intros _ Hlink. by destruct (Hlink target tree).
Qed.

Lemma RunApp_remove_copied copied wd :
  Forall (fun c => c ≠ EmptyString ∧ c ≠ "..") copied →
  RunApp.remove_copied copied wd = (cleanup_loop copied wd, Normal).
Proof.
  intros Hproper. revert wd. unfold cleanup_loop.
  induction Hproper as [|c copied [H1 H2] _ IH]; intros wd; [done|].
  cbn [RunApp.remove_copied fold_left]. destruct (exists_ wd c) eqn:Hex; [|apply IH].
  rewrite RunApp_remove_resource_exists by done. unfold seq. cbn [fst snd]. apply IH.
Qed.

Lemma Main_remove_copied copied wd :
  Forall (fun c => c ≠ EmptyString ∧ c ≠ "..") copied →
  no_link_to_directory copied wd →
  Main.remove_copied copied wd = (cleanup_loop copied wd, Normal).
Proof.
  intros Hproper. revert wd. unfold cleanup_loop.
  induction Hproper as [|c copied [H1 H2] _ IH]; intros wd Hlinks; [done|].
  cbn [Main.remove_copied fold_left].
  assert (no_link_to_directory copied wd) as Hrest.
  { intros name target tree Hin. apply Hlinks. apply elem_of_cons. by right. }
  destruct (exists_ wd c) eqn:Hex; [|by apply IH].
  rewrite Main_remove_resource_exists; [|done..|].
  - unfold seq. cbn [fst snd]. apply IH. intros name target tree Hin.
    destruct (decide (c = name)) as [<-|Hne];
      [by rewrite lookup_delete_eq|rewrite lookup_delete_ne by done; by apply Hrest].
  - intros target tree. apply Hlinks. apply elem_of_cons. by left.
Qed.

(** The cleanup of [main.py] stops on a link to a directory. *)
Lemma Main_remove_copied_refused copied wd n target tree :
  Forall (fun c => c ≠ EmptyString ∧ c ≠ "..") copied →
  n ∈ copied →
  wd !! n = Some (Symlink target (Some (SrcDir tree))) →
  (Main.remove_copied copied wd).2 = Raised OSError.
Proof.
  intros Hproper. revert wd.
  induction Hproper as [|c copied [H1 H2] _ IH]; intros wd Hin Hlink;
    [by apply elem_of_nil in Hin|].
  cbn [Main.remove_copied].
  destruct (decide (n = c)) as [->|Hne].
  - assert (exists_ wd c = true) as ->.
    { unfold exists_. rewrite Hlink. apply orb_true_r. }
    unfold Main.remove_resource, is_dir, rmtree, seq. by rewrite Hlink.
  - assert (n ∈ copied) as Hrest.
    { apply elem_of_cons in Hin as [?|?]; done. }
    destruct (exists_ wd c) eqn:Hex; [|by apply IH].
    destruct (wd !! c) as [[data|tree0|target' [[data|tree0]|]]|] eqn:Hc.
    4: { unfold Main.remove_resource, is_dir, rmtree, seq. by rewrite Hc. }
    1-3: rewrite Main_remove_resource_exists;
      [|done..|by intros ? ?; rewrite Hc]; unfold seq; cbn [fst snd];
      apply IH; [done|by rewrite lookup_delete_ne].
    all: unfold exists_ in Hex; rewrite Hc, bool_decide_false in Hex by (by intros [?|?]);
      done.
Qed.

(** The [finally] blocks. *)
Lemma RunApp_unstage cleanup copied wd :
  Forall (fun c => c ≠ EmptyString ∧ c ≠ "..") copied →
  RunApp.unstage cleanup copied wd
  = if cleanup then (cleanup_loop copied wd, Normal) else (wd, Return).
Proof.
  intros Hproper. unfold RunApp.unstage. destruct cleanup; [|done].
  by apply RunApp_remove_copied.
Qed.

Lemma Main_unstage cleanup copied wd :
  Forall (fun c => c ≠ EmptyString ∧ c ≠ "..") copied →
  no_link_to_directory copied wd →
  Main.unstage cleanup copied wd
  = if cleanup then (cleanup_loop copied wd, Normal) else (wd, Return).
Proof.
  intros Hproper Hlinks. unfold Main.unstage. destruct cleanup; [|done].
  by apply Main_remove_copied.
Qed.

(** The two [with] statements around a staging that ended well. *)
Lemma Main_copy_resources_staged pipeline resources (cleanup : bool) body wd wd1 copied :
  Main.stage pipeline resources wd [] = (wd1, copied, None) →
  (cleanup = true → no_link_to_directory copied (body wd1).1) →
  Main.copy_resources pipeline resources cleanup body wd
  = if cleanup then (cleanup_loop copied (body wd1).1, (body wd1).2)
    else ((body wd1).1, match (body wd1).2 with Raised _ => Normal | out => out end).
Proof.
  intros Hstage Hlinks. unfold Main.copy_resources, with_generator. rewrite Hstage.
  rewrite Main_stage_eq in Hstage. apply stage_copied_proper in Hstage.
  destruct (body wd1) as [wd2 out]. cbn [fst snd] in *. destruct cleanup.
  - rewrite Main_unstage by auto. done.
  - cbn. by destruct out.
Qed.

Lemma RunApp_copy_resources_staged pipeline resources (cleanup : bool) symlink body wd
    wd1 copied :
  RunApp.stage pipeline symlink (RunApp.with_resources_folder pipeline resources) wd []
    = (wd1, copied, None) →
  RunApp._copy_resources pipeline resources cleanup symlink body wd
  = if cleanup then (cleanup_loop copied (body wd1).1, (body wd1).2)
    else ((body wd1).1, match (body wd1).2 with Raised _ => Normal | out => out end).
Proof.
  intros Hstage. unfold RunApp._copy_resources, with_generator. rewrite Hstage.
  apply stage_copied_proper in Hstage.
  destruct (body wd1) as [wd2 out]. cbn [fst snd]. rewrite RunApp_unstage by done.
  destruct cleanup; [done|by destruct out].
Qed.



Example staging_skips_existing :
  Main.copy_resources demo_pipeline demo_resources true demo_body demo_wd
  = (demo_wd, Raised (SystemExit 1)).
Proof. vm_compute. reflexivity. Qed.

(** A link staged for a source that is missing does not exist, and the
    cleanup leaves it. *)
Example cleanup_leaves_dangling_link :
  RunApp._copy_resources demo_pipeline
    [{| path_str := "lost.txt"; path_name := "lost.txt" |}] true true
    (fun w => (w, Normal)) ∅
  = ({[ "lost.txt" := Symlink "lost.txt" None ]}, Normal).
Proof. vm_compute. reflexivity. Qed.

(** The cleanup of [main.py] stops on a link to a directory that the
    call has put under a copied name: [shutil.rmtree] refuses it. *)
Example cleanup_refuses_link_to_directory :
  Main.copy_resources demo_pipeline demo_resources true
    (fun w => (<["data.txt" := Symlink "/data" (Some (SrcDir "tree"))]> w, Normal)) demo_wd
  = (<["data.txt" := Symlink "/data" (Some (SrcDir "tree"))]> demo_wd, Raised OSError).
Proof. vm_compute. reflexivity. Qed.

(** ** The engine invocation *)

(** [CLI.run] of [main.py] appends the [--config] token whatever the
    override list. *)
Lemma Main_assemble_config py_str self a args overrides :
  Main.assemble py_str self a = Ok (args, overrides) →
  ∃ fixed passthrough kvs,
    Main.fixed_args self a = Ok fixed
    ∧ parse_config_args (ctx_args a) (options self) = Ok (passthrough, overrides)
    ∧ Main.key_values py_str overrides = Ok kvs
    ∧ args = fixed ++ passthrough ++ "--config" :: kvs.
Proof.
  unfold Main.assemble.
  destruct (Main.fixed_args self a) as [fixed|e]; [|done]. rewrite bind_Ok.
  destruct (parse_config_args _ _) as [[passthrough c]|e]; [|done]. rewrite bind_Ok.
  destruct (Main.key_values py_str c) as [kvs|e] eqn:Hkvs; [|done]. rewrite bind_Ok.
  intros [= <- <-]. exists fixed, passthrough, kvs.
  split_and!; [done..|]. by rewrite <- app_assoc.
Qed.

(** [RunApp.run] of [run.py] appends it only before a non-empty list of
    [key=value] strs. *)
Lemma RunApp_assemble_config py_str self a args :
  RunApp.assemble py_str self a = Ok args →
  ∃ fixed passthrough overrides,
    RunApp.fixed_args self a = Ok fixed
    ∧ parse_config_args (RunApp.full_ctx_args a) (RunApp.options self)
      = Ok (passthrough, overrides)
    ∧ args = fixed ++ map (Str.replace "--snake-" "-") passthrough
             ++ match RunApp.configs_of py_str overrides with
                | [] => []
                | configs => "--config" :: configs
                end.
Proof.
  unfold RunApp.assemble.
  destruct (RunApp.fixed_args self a) as [fixed|e]; [|done]. rewrite bind_Ok.
  destruct (parse_config_args _ _) as [[passthrough c]|e]; [|done]. rewrite bind_Ok.
  intros [= <-]. exists fixed, passthrough, c. split_and!; [done..|].
  destruct (RunApp.configs_of py_str c); by rewrite ?app_nil_r, <- ?app_assoc.
Qed.

(** C7: for [run --dry-run target], which gives no override, [CLI.run] of
    [main.py] ends the argument list of the engine with a [--config]
    token all the same; [RunApp.run] of [run.py] leaves it out. *)
Theorem C7_config_token_without_overrides py_str :
  Main.assemble py_str demo_cli demo_run_args
  = Ok (["--use-conda"; "--use-singularity"; "--conda-prefix=/pipeline/.conda";
         "--cores=all"; "--snakefile=/pipeline/Snakefile"; "target"; "--dry-run";
         "--config"], [])
  ∧ RunApp.assemble py_str demo_app (demo_error_args false)
    = Ok ["--rerun-incomplete"; "--cores=all"; "--snakefile=/pipeline/Snakefile";
          "--use-conda"; "--conda-prefix=/pipeline/.conda"; "--conda-frontend=mamba";
          "--forceall"; "--nolock"; "error"].
Proof. split; reflexivity. Qed.

(** ** The exit status *)

(** With cleanup of the resources, a nonzero exit status of the engine is
    the one of the command. *)
Lemma run_exit_status_propagates py_str pipeline engine save_dag self a wd
    args wd1 copied wd2 status :
  RunApp.assemble py_str self a = Ok args →
  RunApp.keep_resources a = false →
  RunApp.dag a = None →
  RunApp.stage pipeline (RunApp.symlink_resources self)
    (RunApp.with_resources_folder pipeline (RunApp.resources self)) wd []
    = (wd1, copied, None) →
  engine args wd1 = (wd2, Some (SystemExit status)) →
  status ≠ 0%Z →
  (RunApp.run py_str pipeline engine save_dag self a wd).2 = Raised (SystemExit status).
Proof.
  intros Hargs Hkeep Hdag Hstage Hengine Hstatus. unfold RunApp.run.
  rewrite Hargs, (RunApp_copy_resources_staged _ _ _ _ _ _ _ _ Hstage), Hkeep.
  unfold RunApp.run_body, RunApp.run_engine.
  rewrite Hdag, Hengine, bool_decide_false by done. done.
Qed.

(** When the engine exits with status 0 the command goes on to the
    cleanup of [.snakemake], done only when it was not asked to keep
    it. *)
Lemma run_exit_zero_cleanup py_str pipeline engine save_dag self a wd
    args wd1 copied wd2 :
  RunApp.assemble py_str self a = Ok args →
  RunApp.dag a = None →
  RunApp.stage pipeline (RunApp.symlink_resources self)
    (RunApp.with_resources_folder pipeline (RunApp.resources self)) wd []
    = (wd1, copied, None) →
  engine args wd1 = (wd2, Some (SystemExit 0)) →
  let wd3 := (RunApp.unstage (negb (RunApp.keep_resources a)) copied wd2).1 in
  RunApp.run py_str pipeline engine save_dag self a wd
  = if negb (RunApp.keep_snakemake a) && negb (exists_ wd ".snakemake")
       && exists_ wd3 ".snakemake"
    then rmtree ".snakemake" wd3 else (wd3, Normal).
Proof.
  intros Hargs Hdag Hstage Hengine wd3. subst wd3. unfold RunApp.run.
  rewrite Hargs, (RunApp_copy_resources_staged _ _ _ _ _ _ _ _ Hstage).
  rewrite RunApp_unstage by by eapply stage_copied_proper.
  unfold RunApp.run_body, RunApp.run_engine.
  rewrite Hdag, Hengine, bool_decide_true by done. unfold seq.
  destruct (negb (RunApp.keep_resources a)); cbn [fst snd];
    destruct (RunApp.keep_snakemake a), (exists_ wd ".snakemake"),
      (exists_ _ ".snakemake"); done.
Qed.

(** When the resources are kept the [finally] block of the context
    manager ends by [return], and no exit status of the engine reaches
    the caller. *)
Lemma run_keep_resources_outcome py_str pipeline engine save_dag self a wd args status :
  RunApp.assemble py_str self a = Ok args →
  RunApp.keep_resources a = true →
  (RunApp.run py_str pipeline engine save_dag self a wd).2 ≠ Raised (SystemExit status).
Proof.
  intros Hargs Hkeep.
  unfold RunApp.run, RunApp._copy_resources, with_generator, seq, RunApp.unstage.
  rewrite Hargs, Hkeep. cbn [negb].
  destruct (RunApp.stage _ _ _ _ _) as [[wd1 copied] [e|]]; [done|].
  destruct (RunApp.run_body _ _ _ _ _) as [wd2 out]. cbn [fst snd].
  destruct out as [| |e]; cbn [snd]; [|done|];
    (destruct (negb _ && exists_ wd2 _); [|done]);
    unfold rmtree; by destruct (wd2 !! ".snakemake") as [[data|tree|target [referent|]]|].
Qed.

(** C9: [run -f error --keep-resources] on an engine that exits with
    status 1: the [SystemExit] raised by [sys.exit(status)] is dropped by
    the [return] in the [finally] block of [_copy_resources], the command
    returns and its exit status is 0.  Without [--keep-resources] the
    status 1 is the one of the command. *)
Theorem C9_exit_status_lost_when_resources_kept py_str :
  RunApp.run py_str demo_pipeline failing_engine demo_save_dag demo_app
    (demo_error_args true) ∅
  = (<["data.txt" := File "ACGT"]> ∅, Normal)
  ∧ RunApp.exit_status
      (RunApp.run py_str demo_pipeline failing_engine demo_save_dag demo_app
         (demo_error_args true) ∅).2 = 0%Z
  ∧ RunApp.run py_str demo_pipeline failing_engine demo_save_dag demo_app
      (demo_error_args false) ∅
    = (∅, Raised (SystemExit 1)).
Proof. split_and!; reflexivity. Qed.

(** * Further properties of the code *)

(** ** Values *)

Lemma value_ind_nested (P : value → Prop) :
  P VNone → (∀ b, P (VBool b)) → (∀ n, P (VInt n)) → (∀ f, P (VFloat f)) →
  (∀ s, P (VStr s)) → (∀ s, P (VPath s)) → (∀ s, P (VDatetime s)) →
  (∀ l, Forall P l → P (VList l)) →
  (∀ d, Forall (fun kv => P kv.2) d → P (VDict d)) →
  ∀ v, P v.
Proof.
  intros HNone HBool HInt HFloat HStr HPath HDatetime HList HDict.
  fix IH 1. intros [|b|n|f|s|s|s|l|d];
    [apply HNone|apply HBool|apply HInt|apply HFloat|apply HStr|apply HPath
    |apply HDatetime| |].
  - apply HList. induction l as [|x l IHl]; constructor; [apply IH|exact IHl].
  - apply HDict. induction d as [|[k x] d IHd]; constructor; [apply IH|exact IHd].
Qed.

Lemma set_app_fresh {V} (k : string) (v : V) d1 d2 :
  k ∉ Dict.keys d1 → Dict.set k v (d1 ++ d2) = d1 ++ Dict.set k v d2.
Proof.
  unfold Dict.keys. induction d1 as [|[k' v'] d1 IH]; [done|].
  rewrite fmap_cons. intros [Hne Hnotin]%not_elem_of_cons. cbn.
  rewrite decide_False by done. by rewrite IH.
Qed.

Lemma keys_map_values (f : value → value) (d : dict) :
  Dict.keys ((fun kv => (kv.1, f kv.2)) <$> d) = Dict.keys d.
Proof. unfold Dict.keys. induction d as [|[k v] d IH]; [done|]. cbn. by f_equal. Qed.

(** On a dict the in-place update of [serialise] serialises every value
    and keeps the keys and their order. *)
Lemma update_all_map (f : value → value) (done todo : dict) :
  NoDup (Dict.keys (done ++ todo)) →
  fold_left (fun acc kv => Dict.set kv.1 (f kv.2) acc) todo
    (((fun kv => (kv.1, f kv.2)) <$> done) ++ todo)
  = (fun kv => (kv.1, f kv.2)) <$> (done ++ todo).
Proof.
  revert done. induction todo as [|[k v] todo IH]; intros done Hnodup.
  - by rewrite !app_nil_r.
  - cbn [fold_left fst snd].
    assert (k ∉ Dict.keys ((fun kv => (kv.1, f kv.2)) <$> done)) as Hfresh.
    { rewrite keys_map_values. unfold Dict.keys in *.
      rewrite fmap_app, fmap_cons in Hnodup.
      apply NoDup_app in Hnodup as (_ & Hdisj & _).
      intros Hin. apply (Hdisj k); [done|apply elem_of_cons; by left]. }
    rewrite set_app_fresh by done. cbn [Dict.set]. rewrite decide_True by done.
    specialize (IH (done ++ [(k, v)])).
    replace (done ++ (k, v) :: todo) with ((done ++ [(k, v)]) ++ todo) in *
      by (by rewrite <- app_assoc).
    rewrite <- IH by done. f_equal. by rewrite fmap_app, <- app_assoc.
Qed.

Lemma serialise_dict d :
  NoDup (Dict.keys d) →
  Main.serialise (VDict d) = VDict ((fun kv => (kv.1, Main.serialise kv.2)) <$> d).
Proof.
  intros Hnodup. cbn [Main.serialise]. f_equal.
  exact (update_all_map Main.serialise [] d Hnodup).
Qed.

Lemma serialise_well_formed_plain v :
  well_formed v = true →
  well_formed (Main.serialise v) = true ∧ plain (Main.serialise v) = true.
Proof.
  induction v as [|b|n|f|s|s|s|l IH|d IH] using value_ind_nested; try done.
  - cbn [well_formed Main.serialise plain]. intros Hwf.
    induction IH as [|x l Hx _ IHl]; [done|].
    cbn in Hwf |- *. apply andb_true_iff in Hwf as [Hwfx Hwfl].
    destruct (Hx Hwfx) as [-> ->]. destruct (IHl Hwfl) as [-> ->]. done.
  - intros Hwf. cbn [well_formed] in Hwf.
    apply andb_true_iff in Hwf as [Hnodup%bool_decide_eq_true Hall].
    rewrite serialise_dict by done. cbn [well_formed plain].
    fold (Dict.keys ((fun kv => (kv.1, Main.serialise kv.2)) <$> d)).
    rewrite keys_map_values, bool_decide_true by done. cbn [andb].
    clear Hnodup. induction IH as [|[k x] d Hx _ IHd]; [done|].
    cbn in Hall, Hx |- *. apply andb_true_iff in Hall as [Hwfx Hwfd].
    destruct (Hx Hwfx) as [-> ->]. destruct (IHd Hwfd) as [-> ->]. done.
Qed.

Lemma serialise_plain_fixed v :
  well_formed v = true → plain v = true → Main.serialise v = v.
Proof.
  induction v as [|b|n|f|s|s|s|l IH|d IH] using value_ind_nested; try done.
  - cbn [well_formed Main.serialise plain]. intros Hwf Hplain. f_equal.
    induction IH as [|x l Hx _ IHl]; [done|].
    cbn in Hwf, Hplain |- *.
    apply andb_true_iff in Hwf as [Hwfx Hwfl].
    apply andb_true_iff in Hplain as [Hpx Hpl].
    by rewrite Hx, IHl.
  - intros Hwf Hplain. cbn [well_formed plain] in Hwf, Hplain.
    apply andb_true_iff in Hwf as [Hnodup%bool_decide_eq_true Hall].
    rewrite serialise_dict by done. f_equal. clear Hnodup.
    induction IH as [|[k x] d Hx _ IHd]; [done|].
    cbn in Hall, Hplain, Hx |- *.
    apply andb_true_iff in Hall as [Hwfx Hwfd].
    apply andb_true_iff in Hplain as [Hpx Hpd].
    by rewrite Hx, IHd.
Qed.

(** X1: [serialise] leaves no [Path] and no [datetime] in its result, at
    any depth of lists and dicts, and keeps the keys of a dict and their
    order. *)
Theorem serialise_leaves_primitives v :
  well_formed v = true →
  plain (Main.serialise v) = true
  ∧ well_formed (Main.serialise v) = true
  ∧ (∀ d, v = VDict d →
       ∃ d', Main.serialise v = VDict d' ∧ Dict.keys d' = Dict.keys d).
Proof.
  intros Hwf. destruct (serialise_well_formed_plain v Hwf) as [Hwf' Hplain].
  split_and!; [done..|]. intros d ->. cbn [well_formed] in Hwf.
  apply andb_true_iff in Hwf as [Hnodup%bool_decide_eq_true _].
  eexists. split; [by apply serialise_dict|]. apply keys_map_values.
Qed.

Lemma serialise_leaves_primitives_witness :
  let v := VDict [("out", VPath "results/x"); ("runs", VList [VDatetime "2023-01-01"; VInt 3])] in
  plain (Main.serialise v) = true
  ∧ well_formed (Main.serialise v) = true
  ∧ (∀ d, v = VDict d →
       ∃ d', Main.serialise v = VDict d' ∧ Dict.keys d' = Dict.keys d).
Proof.
  apply (serialise_leaves_primitives
           (VDict [("out", VPath "results/x");
                   ("runs", VList [VDatetime "2023-01-01"; VInt 3])])).
  vm_compute. reflexivity.
Defined.

(** X2: [serialise] is idempotent, and it is the identity on a value
    that holds no [Path] and no [datetime]. *)
Theorem serialise_idempotent v :
  well_formed v = true →
  Main.serialise (Main.serialise v) = Main.serialise v
  ∧ (plain v = true → Main.serialise v = v).
Proof.
  intros Hwf. destruct (serialise_well_formed_plain v Hwf) as [Hwf' Hplain].
  split; [by apply serialise_plain_fixed|]. by apply serialise_plain_fixed.
Qed.

Lemma serialise_idempotent_witness :
  let v := VList [VPath "a/b"; VDict [("when", VDatetime "2023-01-01"); ("n", VInt 1)]] in
  Main.serialise (Main.serialise v) = Main.serialise v
  ∧ (plain v = true → Main.serialise v = v).
Proof.
  apply (serialise_idempotent
           (VList [VPath "a/b"; VDict [("when", VDatetime "2023-01-01"); ("n", VInt 1)]])).
  vm_compute. reflexivity.
Defined.

(** ** The key codec *)

Lemma get_path_nested parts v :
  parts ≠ [] → get_path parts (nested_mapping parts v) = Some v.
Proof.
  induction parts as [|p ps IH]; [done|]. intros _.
  destruct ps as [|q ps].
  - cbn. by rewrite decide_True.
  - change (nested_mapping (p :: q :: ps) v)
      with [(p, VDict (nested_mapping (q :: ps) v))].
    cbn [get_path]. rewrite get_singleton. by apply IH.
Qed.

(** X3: [convert_key_to_samkemake_format] raises on no key; the mapping
    it returns has one top-level key, the first segment of the key, and
    following the segments of the key in it leads to the value. *)
Theorem convert_key_round_trip key v :
  ∃ d first rest,
    Main.convert_key_to_samkemake_format key v = Ok d
    ∧ Str.split ":" key = first :: rest
    ∧ Dict.keys d = [first]
    ∧ get_path (Str.split ":" key) d = Some v.
Proof.
  rewrite convert_key_split. pose proof (split_nonempty ":" key) as Hne.
  destruct (Str.split ":" key) as [|first rest] eqn:Hsplit; [done|].
  exists (nested_mapping (first :: rest) v), first, rest.
  split_and!; [done..| |by apply get_path_nested].
  by destruct rest.
Qed.

(** ** The search for the Snakefile *)

(** X4: [_find_snakefile] returns the first of the choices that exists
    below the pipeline directory, and raises [FileNotFoundError] exactly
    when none of them exists. *)
Theorem find_snakefile_first at_pipeline path_exists choices :
  match Main._find_snakefile at_pipeline path_exists choices with
  | Ok found =>
      ∃ before path after,
        choices = before ++ path :: after
        ∧ found = at_pipeline path
        ∧ path_exists found = true
        ∧ Forall (fun p => path_exists (at_pipeline p) = false) before
  | Raise e =>
      e = FileNotFoundError
      ∧ Forall (fun p => path_exists (at_pipeline p) = false) choices
  end.
Proof.
  induction choices as [|p choices IH]; cbn [Main._find_snakefile]; [done|].
  destruct (path_exists (at_pipeline p)) eqn:Hp.
  - exists [], p, choices. by split_and!.
  - destruct (Main._find_snakefile _ _ choices) as [found|e].
    + destruct IH as (before & path & after & -> & -> & Hex & Hbefore).
      exists (p :: before), path, after. split_and!; [done..|]. by constructor.
    + destruct IH as [-> Hall]. split; [done|]. by constructor.
Qed.

(** ** The argument reconciler, further *)

(** What one step of the loop does, by cases. *)
Lemma parse_step_cases options st arg st' :
  flag_ok options st →
  parse_step options st arg = Ok st' →
  (∃ f op, flag st = Some f ∧ op ∈ options
           ∧ next_named (Str.lstrip "-" f) options = Ok op
           ∧ flag st' = None ∧ parsed st' = parsed st
           ∧ ((py_eq (op_default op) (VStr arg) = true ∧ config st' = config st)
              ∨ (py_eq (op_default op) (VStr arg) = false
                 ∧ config st' = config st ++ [entry_of op arg])))
  ∨ (flag st = None ∧ is_flag options arg = true
     ∧ flag st' = Some arg ∧ parsed st' = parsed st ∧ config st' = config st)
  ∨ (flag st = None ∧ is_flag options arg = false
     ∧ flag st' = None ∧ parsed st' = parsed st ++ [arg] ∧ config st' = config st).
Proof.
  intros Hok. destruct st as [[f|] p c]; cbn [flag parsed config].
  - pose proof (Hok f eq_refl) as Hflag.
    pose proof Hflag as [Hdash Hin]%is_flag_true.
    destruct (next_named_Ok _ _ Hin) as (op & Hop & Hname).
    rewrite (parse_step_value _ _ _ _ _ op Hdash Hop). intros [= <-]. left.
    exists f, op. cbn [flag parsed config]. split_and!; [done| |done..|].
    + clear -Hop. induction options as [|o os IH]; [done|]. cbn in Hop.
      destruct (decide (op_name o = Str.lstrip "-" f)).
      * injection Hop as ->. apply elem_of_cons. by left.
      * apply elem_of_cons. right. by apply IH.
    + destruct (py_eq (op_default op) (VStr arg)); [by left|by right].
  - destruct (is_flag options arg) eqn:Hflag.
    + rewrite parse_step_flag by done. intros [= <-]. right. left. by split_and!.
    + rewrite parse_step_pass by done. intros [= <-]. right. right. by split_and!.
Qed.

(** An invariant of the loop: a property of the tokens read so far and
    of the state that every step keeps holds at the end. *)
Lemma loop_invariant options (P : list string → pstate → Prop) args seen st st' :
  (∀ seen st arg st', flag_ok options st → P seen st →
     parse_step options st arg = Ok st' → P (seen ++ [arg]) st') →
  flag_ok options st → P seen st →
  for_each (parse_step options) args st = Ok st' →
  P (seen ++ args) st'.
Proof.
  intros Hstep. revert seen st.
  induction args as [|arg args IH]; intros seen st Hok HP.
  - intros [= <-]. by rewrite app_nil_r.
  - rewrite for_each_cons.
    destruct (parse_step_total options st arg Hok) as (st1 & Hst1 & Hok1).
    rewrite Hst1, bind_Ok. intros Hrest.
    replace (seen ++ arg :: args) with ((seen ++ [arg]) ++ args)
      by (by rewrite <- app_assoc).
    apply (IH _ st1); [done| |done]. exact (Hstep seen st arg st1 Hok HP Hst1).
Qed.

Lemma parse_config_args_invariant options (P : list string → pstate → Prop) args p c :
  (∀ seen st arg st', flag_ok options st → P seen st →
     parse_step options st arg = Ok st' → P (seen ++ [arg]) st') →
  P [] init →
  parse_config_args args options = Ok (p, c) →
  ∃ st, P args st ∧ parsed st = p ∧ config st = c.
Proof.
  intros Hstep Hinit. unfold parse_config_args.
  destruct (for_each (parse_step options) args init) as [st|e] eqn:Hloop; [|done].
  rewrite bind_Ok. intros [= <- <-]. exists st. split; [|done].
  by apply (loop_invariant options P args [] init st Hstep (init_ok options)).
Qed.

Lemma entry_of_single op v : ∃ k x, entry_of op v = [(k, x)].
Proof.
  unfold entry_of. destruct (Str.mem ":" (op_original_key op)) eqn:Hmem; [|by eexists _, _].
  pose proof (mem_split_single _ _ Hmem) as Hlen.
  destruct (Str.split ":" (op_original_key op)) as [|k [|q ps]]; simpl in Hlen; [lia..|].
  by eexists _, _.
Qed.

(** X5: the passthrough list is a subsequence of the input: tokens are
    never reordered, changed or made up; and every token of the input
    is accounted for: a passthrough token counts one, an override two
    (its flag and its value). *)
Theorem passthrough_is_subsequence options args :
  ∃ p c,
    parse_config_args args options = Ok (p, c)
    ∧ p `sublist_of` args
    ∧ length p + 2 * length c ≤ length args.
Proof.
  destruct (parse_config_args_total args options) as (p & c & Hparse).
  exists p, c. split; [done|].
  destruct (parse_config_args_invariant options
    (fun seen st =>
       parsed st `sublist_of` seen
       ∧ length (parsed st) + 2 * length (config st)
         + (match flag st with Some _ => 1 | None => 0 end) ≤ length seen)
    args p c) as (st & [Hsub Hlen] & <- & <-); [| |done|].
  - intros seen st arg st' Hok [Hsub Hlen] Hstep. rewrite length_app. cbn [length].
    destruct (parse_step_cases _ _ _ _ Hok Hstep)
      as [(f & op & Hf & _ & _ & -> & -> & [[_ ->]|[_ ->]])
         |[(Hf & _ & -> & -> & ->)|(Hf & _ & -> & -> & ->)]];
      rewrite Hf in Hlen; rewrite ?length_app; cbn [length];
      (split; [|lia]).
    + by apply sublist_inserts_r.
    + by apply sublist_inserts_r.
    + by apply sublist_inserts_r.
    + by apply sublist_app.
  - cbn. split; [done|lia].
  - split; [done|]. destruct (flag st); lia.
Qed.

(** X6: every override entry stems from a descriptor of the list and a
    token of the input that does not compare equal to the default of that
    descriptor, and is a dict of exactly one item. *)
Theorem overrides_stem_from_descriptors options args :
  ∃ p c,
    parse_config_args args options = Ok (p, c)
    ∧ Forall (fun entry =>
                ∃ op v k x,
                  op ∈ options ∧ v ∈ args
                  ∧ py_eq (op_default op) (VStr v) = false
                  ∧ entry = entry_of op v ∧ entry = [(k, x)]) c.
Proof.
  destruct (parse_config_args_total args options) as (p & c & Hparse).
  exists p, c. split; [done|].
  destruct (parse_config_args_invariant options
    (fun seen st =>
       Forall (fun entry =>
                 ∃ op v k x,
                   op ∈ options ∧ v ∈ seen
                   ∧ py_eq (op_default op) (VStr v) = false
                   ∧ entry = entry_of op v ∧ entry = [(k, x)]) (config st))
    args p c) as (st & Hall & _ & <-); [| |done|done].
  - intros seen st arg st' Hok Hall Hstep.
    assert (Forall (fun entry =>
                 ∃ op v k x,
                   op ∈ options ∧ v ∈ seen ++ [arg]
                   ∧ py_eq (op_default op) (VStr v) = false
                   ∧ entry = entry_of op v ∧ entry = [(k, x)]) (config st)) as Hall'.
    { eapply Forall_impl; [exact Hall|].
      intros entry (op & v & k & x & Hop & Hv & Hneq & He & Hk).
      exists op, v, k, x. split_and!; [done| |done..]. apply elem_of_app. by left. }
    destruct (parse_step_cases _ _ _ _ Hok Hstep)
      as [(f & op & Hf & Hop & _ & _ & _ & [[_ ->]|[Hneq ->]])
         |[(_ & _ & _ & _ & ->)|(_ & _ & _ & _ & ->)]]; [done| |done..].
    apply Forall_app. split; [done|]. constructor; [|done].
    destruct (entry_of_single op arg) as (k & x & Hk).
    exists op, arg, k, x. split_and!; [done| |done..].
    apply elem_of_app. right. by apply list_elem_of_singleton.
  - constructor.
Qed.

Lemma parse_all_passthrough options p :
  Forall (fun a => is_flag options a = false) p →
  parse_config_args p options = Ok (p, []).
Proof.
  induction 1 as [|a p Ha _ IH]; [done|].
  by rewrite parse_config_args_passthrough, IH.
Qed.

(** X7: no descriptor flag is left in the passthrough list, so that
    reading the passthrough list again returns it as it is, with no
    override. *)
Theorem passthrough_is_fixed_point options args :
  ∃ p c,
    parse_config_args args options = Ok (p, c)
    ∧ Forall (fun a => is_flag options a = false) p
    ∧ parse_config_args p options = Ok (p, []).
Proof.
  destruct (parse_config_args_total args options) as (p & c & Hparse).
  exists p, c. split; [done|].
  destruct (parse_config_args_invariant options
    (fun seen st => Forall (fun a => is_flag options a = false) (parsed st))
    args p c) as (st & Hall & <- & _); [| |done|].
  - intros seen st arg st' Hok Hall Hstep.
    destruct (parse_step_cases _ _ _ _ Hok Hstep)
      as [(f & op & _ & _ & _ & _ & -> & _)
         |[(_ & _ & _ & -> & _)|(_ & Hflag & _ & -> & _)]]; [done..|].
    apply Forall_app. split; [done|]. by constructor.
  - constructor.
  - split; [done|]. by apply parse_all_passthrough.
Qed.

(** X8: without descriptors every token passes through and there is no
    override. *)
Theorem no_descriptor_all_passthrough args :
  parse_config_args args [] = Ok (args, []).
Proof.
  apply parse_all_passthrough. apply Forall_forall. intros a _.
  unfold is_flag, names. cbn [map]. rewrite bool_decide_false by apply not_elem_of_nil.
  apply andb_false_r.
Qed.

Lemma next_named_app name l1 l2 :
  next_named name (l1 ++ l2)
  = match next_named name l1 with
    | Ok op => Ok op
    | Raise _ => next_named name l2
    end.
Proof.
  induction l1 as [|o l1 IH]; [done|]. cbn.
  by destruct (decide (op_name o = name)).
Qed.

Lemma parse_step_ext options options' st arg :
  (∀ a, is_flag options a = is_flag options' a) →
  (∀ name, next_named name options = next_named name options') →
  parse_step options st arg = parse_step options' st arg.
Proof. intros Hflag Hnext. unfold parse_step. by rewrite Hflag, Hnext. Qed.

Lemma for_each_ext {A S} (body body' : S → A → result S) xs st :
  (∀ st x, body st x = body' st x) → for_each body xs st = for_each body' xs st.
Proof.
  intros Hext. revert st. induction xs as [|x xs IH]; intros st; [done|].
  rewrite !for_each_cons, Hext. destruct (body' st x); [|done]. rewrite !bind_Ok. apply IH.
Qed.

(** X9: a descriptor that comes after another one of the same name is
    never used: the result is the one of the list without it. *)
Theorem shadowed_descriptor_unused args before o after :
  op_name o ∈ names before →
  parse_config_args args (before ++ o :: after)
  = parse_config_args args (before ++ after).
Proof.
  intros Hin. unfold parse_config_args. f_equal.
  apply for_each_ext. intros st arg. apply parse_step_ext.
  - intros a. unfold is_flag, names. f_equal. apply bool_decide_ext.
    rewrite !map_app, map_cons, !elem_of_app, elem_of_cons.
    split; [intros [?|[->|?]]|intros [?|?]]; auto.
  - intros name. rewrite !next_named_app.
    destruct (next_named name before) as [op|e] eqn:Hbefore; [done|].
    cbn. rewrite decide_False; [done|]. intros <-.
    destruct (next_named_Ok _ _ Hin) as (op & Hop & _). congruence.
Qed.

Lemma shadowed_descriptor_unused_witness :
  parse_config_args ["--a_b"; "2"] ([a_b] ++ {| op_name := "a_b";
      op_original_key := "a_b"; op_default := VStr "2"; op_help := VStr "dup";
      op_type := VStr "str"; op_required := VBool false |} :: [threads])
  = parse_config_args ["--a_b"; "2"] ([a_b] ++ [threads]).
Proof.
  apply (shadowed_descriptor_unused ["--a_b"; "2"] [a_b]).
  apply list_elem_of_singleton. reflexivity.
Defined.

(** ** The option synthesizer, further *)

Lemma replace_char_removes old new s :
  old ≠ new → Str.mem old (Str.replace_char old new s) = false.
Proof.
  intros Hne. induction s as [|a s IH]; [done|]. cbn. rewrite IH, orb_false_r.
  apply bool_decide_eq_false. case_bool_decide; congruence.
Qed.

Lemma get_of_keys {V} (k : string) (d : list (string * V)) :
  k ∈ Dict.keys d → ∃ v, Dict.get k d = Some v.
Proof.
  unfold Dict.keys. induction d as [|[k' v'] d IH]; [by intros ?%elem_of_nil|].
  rewrite fmap_cons. cbn. intros [->|Hin]%elem_of_cons.
  - exists v'. by rewrite decide_True.
  - destruct (decide (k' = k)); [by eexists|]. by apply IH.
Qed.

Lemma get_NoDup {V} (k : string) (v : V) (d : list (string * V)) :
  NoDup (Dict.keys d) → (k, v) ∈ d → Dict.get k d = Some v.
Proof.
  unfold Dict.keys. induction d as [|[k' v'] d IH]; [by intros _ ?%elem_of_nil|].
  rewrite fmap_cons. cbn. intros [Hfresh Hnodup]%NoDup_cons [[= -> ->]|Hin]%elem_of_cons.
  - by rewrite decide_True.
  - rewrite decide_False; [by apply IH|]. intros ->. apply Hfresh.
    apply list_elem_of_fmap. by exists (k, v).
Qed.

Lemma build_option_cases flat_config flat_snk_annotations op :
  op ∈ Dict.keys flat_config →
  match build_option flat_config flat_snk_annotations op with
  | Ok o =>
      (∀ v, Dict.get (op +:+ ":name") flat_snk_annotations = Some v → ∃ s, v = VStr s)
      ∧ Str.mem "-" (op_name o) = false
      ∧ op_original_key o = op
      ∧ Dict.get op flat_config = Some (op_default o)
  | Raise e =>
      (e = AttributeError ∨ e = TypeError)
      ∧ ∃ v, Dict.get (op +:+ ":name") flat_snk_annotations = Some v ∧ ∀ s, v ≠ VStr s
  end.
Proof.
  intros (dflt & Hget)%get_of_keys.
  unfold build_option, Dict.getitem, Dict.get_default. rewrite Hget, bind_Ok.
  destruct (Dict.get (op +:+ ":name") flat_snk_annotations) as [v|] eqn:Hname.
  - destruct v; cbn [replace_method]; rewrite ?bind_Ok, ?bind_Raise;
      try (split; [auto|]; eexists; split; [done|]; by intros s').
    cbn. split_and!; [intros v [= <-]; by eexists| |done..].
    by apply replace_char_removes.
  - cbn [replace_method]. rewrite bind_Ok. cbn.
    split_and!; [done| |done..]. by apply replace_char_removes.
Qed.

Lemma Forall2_impl_elem {A B} (P Q : A → B → Prop) l k :
  Forall2 P l k → (∀ x y, x ∈ l → P x y → Q x y) → Forall2 Q l k.
Proof.
  induction 1 as [|x y l k Hxy _ IH]; intros Himpl; constructor.
  - apply Himpl; [apply elem_of_cons; by left|done].
  - apply IH. intros x' y' Hin. apply Himpl. apply elem_of_cons. by right.
Qed.

Lemma build_options_cases flat_config flat_snk_annotations :
  match build_options flat_config flat_snk_annotations with
  | Ok options =>
      Forall2 (fun op o =>
                 (∀ v, Dict.get (op +:+ ":name") flat_snk_annotations = Some v →
                       ∃ s, v = VStr s)
                 ∧ Str.mem "-" (op_name o) = false
                 ∧ op_original_key o = op
                 ∧ Dict.get op flat_config = Some (op_default o))
        (Dict.keys flat_config) options
  | Raise e =>
      (e = AttributeError ∨ e = TypeError)
      ∧ ∃ op v, op ∈ Dict.keys flat_config
          ∧ Dict.get (op +:+ ":name") flat_snk_annotations = Some v ∧ ∀ s, v ≠ VStr s
  end.
Proof.
  unfold build_options.
  pose proof (for_each_collect (build_option flat_config flat_snk_annotations)
                (Dict.keys flat_config) []) as H.
  destruct (for_each _ _ _) as [res|e].
  - destruct H as (os & -> & Hos). cbn [app].
    eapply Forall2_impl_elem; [exact Hos|]. intros op o Hop Ho.
    pose proof (build_option_cases flat_config flat_snk_annotations op Hop) as Hc.
    by rewrite Ho in Hc.
  - destruct H as (op & Hop & Hraise).
    pose proof (build_option_cases flat_config flat_snk_annotations op Hop) as Hc.
    rewrite Hraise in Hc. destruct Hc as [He (v & Hv & Hns)].
    split; [done|]. by exists op, v.
Qed.

(** X10: the synthesis of the descriptors fails exactly when the
    annotations give some configuration key a name that is not a str
    ([name.replace] then raises [AttributeError] or [TypeError]);
    otherwise it returns one descriptor per key. *)
Theorem build_options_fails_on_non_str_name flat_config flat_snk_annotations :
  match build_options flat_config flat_snk_annotations with
  | Ok options =>
      length options = length flat_config
      ∧ ∀ op v, op ∈ Dict.keys flat_config →
          Dict.get (op +:+ ":name") flat_snk_annotations = Some v → ∃ s, v = VStr s
  | Raise e =>
      (e = AttributeError ∨ e = TypeError)
      ∧ ∃ op v, op ∈ Dict.keys flat_config
          ∧ Dict.get (op +:+ ":name") flat_snk_annotations = Some v ∧ ∀ s, v ≠ VStr s
  end.
Proof.
  pose proof (build_options_cases flat_config flat_snk_annotations) as H.
  destruct (build_options _ _) as [options|e]; [|done]. split.
  - apply Forall2_length in H. unfold Dict.keys in H. by rewrite length_fmap in H.
  - intros op v Hop Hv.
    apply list_elem_of_lookup in Hop as (i & Hi).
    destruct (Forall2_lookup_l _ _ _ _ _ H Hi) as (o & _ & Hstr & _). by apply Hstr.
Qed.

(** X11: no name of a synthesized descriptor contains a hyphen, be it
    annotated or derived from the key. *)
Theorem descriptor_names_have_no_hyphen flat_config flat_snk_annotations :
  match build_options flat_config flat_snk_annotations with
  | Ok options => Forall (fun o => Str.mem "-" (op_name o) = false) options
  | Raise _ => True
  end.
Proof.
  pose proof (build_options_cases flat_config flat_snk_annotations) as H.
  destruct (build_options _ _) as [options|e]; [|done].
  induction H as [|op o ops os (_ & Hname & _) _ IH]; by constructor.
Qed.

Lemma items_of_descriptors (d suffix : dict) options :
  (∀ kv, kv ∈ suffix → Dict.get kv.1 d = Some kv.2) →
  Forall2 (fun op o => op_original_key o = op ∧ Dict.get op d = Some (op_default o))
    (Dict.keys suffix) options →
  map (fun o => (op_original_key o, op_default o)) options = suffix.
Proof.
  revert options. induction suffix as [|[k v] suffix IH]; intros options Hget Hall.
  - by apply Forall2_nil_inv_l in Hall as ->.
  - unfold Dict.keys in Hall. rewrite fmap_cons in Hall.
    apply Forall2_cons_inv_l in Hall as (o & os & [Hkey Hdflt] & Hall & ->).
    cbn. f_equal.
    + cbn in Hkey. rewrite Hkey. f_equal.
      specialize (Hget (k, v)). cbn in Hget, Hdflt.
      rewrite Hget in Hdflt by (apply elem_of_cons; by left). congruence.
    + apply IH; [|done]. intros kv Hkv. apply Hget. apply elem_of_cons. by right.
Qed.

(** X12: the descriptors carry the flattened configuration: their
    original keys with their defaults are the items of the flattened
    configuration, in the same order. *)
Theorem descriptors_carry_the_config flat_config flat_snk_annotations options :
  NoDup (Dict.keys flat_config) →
  build_options flat_config flat_snk_annotations = Ok options →
  map (fun o => (op_original_key o, op_default o)) options = flat_config.
Proof.
  intros Hnodup Hbuild.
  pose proof (build_options_cases flat_config flat_snk_annotations) as H.
  rewrite Hbuild in H. apply (items_of_descriptors flat_config).
  - intros [k v] Hkv. by apply get_NoDup.
  - eapply Forall2_impl; [exact H|]. by intros op o (_ & _ & ? & ?).
Qed.

Lemma descriptors_carry_the_config_witness :
  map (fun o => (op_original_key o, op_default o)) [a_b; threads]
  = [("a:b", VInt 1); ("threads", VInt 1)].
Proof.
  apply (descriptors_carry_the_config [("a:b", VInt 1); ("threads", VInt 1)] []).
  - apply NoDup_cons. split; [|apply NoDup_singleton].
    intros [=]%list_elem_of_singleton.
  - reflexivity.
Defined.

(** ** Resource staging, further *)

(** Removing what staging listed gives the working directory back, when
    neither it nor the staged one holds a dangling link. *)
Lemma cleanup_restores pipeline symlink resources wd wd1 copied err :
  no_dangling_link wd →
  no_dangling_link wd1 →
  RunApp.stage pipeline symlink resources wd [] = (wd1, copied, err) →
  cleanup_loop copied wd1 = wd.
Proof.
  intros Hclean Hclean1 (new & Heq & Hnew & Hframe & _)%stage_spec.
  cbn [app] in Heq. subst new. apply map_eq. intros n.
  rewrite cleanup_lookup. case_bool_decide as Hin; cbn [andb].
  - destruct (Hnew n Hin) as (Hex & _ & r & nd & _ & _ & Hn1).
    rewrite (exists_present _ _ _ Hclean1 Hn1). symmetry. by apply exists_absent.
  - by apply Hframe.
Qed.

(** X13: staging followed by cleanup is a round trip: from a working
    directory without dangling links, when every resource to stage is
    there below the pipeline directory, the [with] statement around a
    call that leaves the working directory as it found it gives back the
    working directory it started from, whatever the way the call ended,
    with copies and with links. *)
Theorem staging_round_trip pipeline symlink resources out wd :
  no_dangling_link wd →
  (∀ r, r ∈ resources → absent wd (path_name r) → is_Some (pipeline (path_str r))) →
  Main.copy_resources pipeline resources true (fun w => (w, out)) wd = (wd, out)
  ∧ RunApp._copy_resources pipeline resources true symlink (fun w => (w, out)) wd
    = (wd, out).
Proof.
  intros Hclean Hthere.
  assert (∀ r, r ∈ resources → exists_ wd (path_name r) = false →
            is_Some (pipeline (path_str r))) as Hthere'.
  { intros r Hr Hex%exists_false. by apply Hthere. }
  clear Hthere. rename Hthere' into Hthere. split.
  - destruct (stage_succeeds pipeline false resources wd [] Hclean Hthere)
      as (wd1 & copied & Hstage & Hclean1).
    rewrite (Main_copy_resources_staged _ _ _ _ _ wd1 copied).
    + cbn [fst snd]. f_equal. by eapply cleanup_restores.
    + by rewrite Main_stage_eq.
    + intros _. cbn [fst]. by eapply stage_no_link_to_directory.
  - destruct (stage_succeeds pipeline symlink (RunApp.with_resources_folder pipeline resources)
                wd [] Hclean) as (wd1 & copied & Hstage & Hclean1).
    { unfold RunApp.with_resources_folder. case_bool_decide as Hfolder; [|done].
      intros r [->|Hr]%elem_of_cons; [done|by apply Hthere]. }
    rewrite (RunApp_copy_resources_staged _ _ _ _ _ _ _ _ Hstage).
    cbn [fst snd]. f_equal. by eapply cleanup_restores.
Qed.

Lemma staging_round_trip_witness :
  Main.copy_resources demo_pipeline demo_resources true (fun w => (w, Normal)) demo_wd
    = (demo_wd, Normal)
  ∧ RunApp._copy_resources demo_pipeline demo_resources true true
      (fun w => (w, Normal)) demo_wd
    = (demo_wd, Normal).
Proof.
  apply (staging_round_trip demo_pipeline true demo_resources Normal demo_wd).
  - intros name target. unfold demo_wd.
    destruct (decide (name = "keep.txt")) as [->|Hne];
      [by rewrite lookup_singleton_eq|by rewrite lookup_singleton_ne].
  - intros r [->|[->|[]%elem_of_nil]%elem_of_cons]%elem_of_cons; [by eexists|].
    by intros (_ & _ & [Hnone|[target Hlink]]).
Defined.

(** A link staged for a missing source is left behind: without the
    sources there is no round trip. *)
Example staging_round_trip_needs_the_source :
  RunApp._copy_resources demo_pipeline
    [{| path_str := "lost.txt"; path_name := "lost.txt" |}] true true
    (fun w => (w, Normal)) demo_wd
  = (<["lost.txt" := Symlink "lost.txt" None]> demo_wd, Normal).
Proof. vm_compute. reflexivity. Qed.

(** X14: when copying a resource fails in the middle of staging, the
    call is not made; with cleanup the resources copied so far that
    exist are removed and the exception of the copy is raised, which is
    a [FileNotFoundError] (the resource is missing below the pipeline
    directory) or a [FileExistsError] (a dangling link is in the way of
    a directory); without cleanup they stay and the exception is replaced
    by the [RuntimeError] of a generator that did not yield.  From a
    working directory without dangling links the exception is the
    [FileNotFoundError] and the working directory left with cleanup is
    the one before staging. *)
Theorem staging_failure_restores pipeline resources body wd wd1 copied e :
  Main.stage pipeline resources wd [] = (wd1, copied, Some e) →
  Main.copy_resources pipeline resources true body wd = (cleanup_loop copied wd1, Raised e)
  ∧ Main.copy_resources pipeline resources false body wd = (wd1, Raised RuntimeError)
  ∧ (e = FileNotFoundError ∨ e = FileExistsError)
  ∧ (no_dangling_link wd → cleanup_loop copied wd1 = wd ∧ e = FileNotFoundError).
Proof.
  intros Hstage. unfold Main.copy_resources, with_generator. rewrite Hstage.
  rewrite Main_stage_eq in Hstage. split_and!; [|done|by eapply stage_error|].
  - by rewrite Main_unstage;
      [|by eapply stage_copied_proper|by eapply stage_no_link_to_directory].
  - intros Hclean. destruct (stage_clean _ _ _ _ _ _ _ Hclean Hstage) as [Hclean1 He].
    split; [|by apply He]. by eapply cleanup_restores.
Qed.

Lemma staging_failure_restores_witness :
  let missing := [{| path_str := "data.txt"; path_name := "data.txt" |};
                  {| path_str := "lost.txt"; path_name := "lost.txt" |}] in
  let staged : workdir := <["data.txt" := File "ACGT"]> demo_wd in
  Main.copy_resources demo_pipeline missing true demo_body demo_wd
    = (cleanup_loop ["data.txt"] staged, Raised FileNotFoundError)
  ∧ Main.copy_resources demo_pipeline missing false demo_body demo_wd
    = (staged, Raised RuntimeError)
  ∧ (FileNotFoundError = FileNotFoundError ∨ FileNotFoundError = FileExistsError)
  ∧ (no_dangling_link demo_wd →
       cleanup_loop ["data.txt"] staged = demo_wd ∧ FileNotFoundError = FileNotFoundError).
Proof.
  intros missing staged.
  apply (staging_failure_restores demo_pipeline missing demo_body demo_wd
           staged ["data.txt"] FileNotFoundError).
  reflexivity.
Defined.

(** A dangling link in the working directory changes this: a directory
    is refused at its name, with [FileExistsError], and a file is written
    through it, after which the cleanup removes the link, which was there
    before. *)
Example staging_failure_on_dangling_link :
  Main.stage (fun _ => Some (SrcDir "tree")) [{| path_str := "data"; path_name := "data" |}]
    {[ "data" := Symlink "/gone" None ]} []
  = ({[ "data" := Symlink "/gone" None ]}, [], Some FileExistsError)
  ∧ Main.copy_resources demo_pipeline
      [{| path_str := "data.txt"; path_name := "data.txt" |};
       {| path_str := "lost.txt"; path_name := "lost.txt" |}] true demo_body
      {[ "data.txt" := Symlink "/gone" None ]}
    = (∅, Raised FileNotFoundError).
Proof. split; vm_compute; reflexivity. Qed.

(** X15: without cleanup the [finally] block of both context managers
    ends by [return], so that no exception of the call leaves the [with]
    statement: the call's effect on the working directory stays and a
    raised exception becomes a normal end. *)
Theorem no_cleanup_swallows_exceptions pipeline symlink resources body wd
    wd1 copied wd1' copied' :
  Main.stage pipeline resources wd [] = (wd1, copied, None) →
  RunApp.stage pipeline symlink (RunApp.with_resources_folder pipeline resources) wd []
    = (wd1', copied', None) →
  Main.copy_resources pipeline resources false body wd
    = ((body wd1).1, match (body wd1).2 with Raised _ => Normal | out => out end)
  ∧ RunApp._copy_resources pipeline resources false symlink body wd
    = ((body wd1').1, match (body wd1').2 with Raised _ => Normal | out => out end).
Proof.
  intros Hmain Hrun.
  by rewrite (Main_copy_resources_staged _ _ _ _ _ _ _ Hmain),
    (RunApp_copy_resources_staged _ _ _ _ _ _ _ _ Hrun).
Qed.

Lemma no_cleanup_swallows_exceptions_witness :
  let staged : workdir := <["data.txt" := File "ACGT"]> demo_wd in
  Main.copy_resources demo_pipeline demo_resources false demo_body demo_wd
    = ((demo_body staged).1,
       match (demo_body staged).2 with Raised _ => Normal | out => out end)
  ∧ RunApp._copy_resources demo_pipeline demo_resources false false demo_body demo_wd
    = ((demo_body staged).1,
       match (demo_body staged).2 with Raised _ => Normal | out => out end).
Proof.
  intros staged.
  apply (no_cleanup_swallows_exceptions demo_pipeline false demo_resources demo_body
           demo_wd staged ["data.txt"] staged ["data.txt"]); reflexivity.
Defined.

(** ** The two [run] commands, further *)

Lemma overrides_single options args p c :
  parse_config_args args options = Ok (p, c) →
  Forall (fun entry => ∃ k x, entry = [(k, x)]) c.
Proof.
  intros Hparse.
  destruct (parse_config_args_invariant options
    (fun seen st => Forall (fun entry : dict => ∃ k x, entry = [(k, x)]) (config st))
    args p c) as (st & Hall & _ & <-); [| |done|done].
  - intros seen st arg st' Hok Hall Hstep.
    destruct (parse_step_cases _ _ _ _ Hok Hstep)
      as [(f & op & _ & _ & _ & _ & _ & [[_ ->]|[_ ->]])
         |[(_ & _ & _ & _ & ->)|(_ & _ & _ & _ & ->)]]; [done| |done..].
    apply Forall_app. split; [done|]. constructor; [|done]. apply entry_of_single.
  - constructor.
Qed.

Lemma key_values_total py_str (c : list dict) :
  Forall (fun entry => ∃ k x, entry = [(k, x)]) c →
  ∃ kvs, Main.key_values py_str c = Ok kvs ∧ length kvs = length c.
Proof.
  induction 1 as [|entry c (k & x & ->) _ (kvs & IH & Hlen)]; [by exists []|].
  cbn [Main.key_values Main.key_value]. rewrite bind_Ok, IH, bind_Ok.
  eexists. split; [done|]. cbn. by rewrite Hlen.
Qed.

Lemma Main_fixed_args_cases self a :
  match Main.fixed_args self a with
  | Ok args => snakefile_exists self = true
  | Raise e => snakefile_exists self = false ∧ e = ValueError
  end.
Proof. unfold Main.fixed_args. by destruct (snakefile_exists self). Qed.

Lemma RunApp_fixed_args_cases self a :
  match RunApp.fixed_args self a with
  | Ok args => RunApp.snakefile_exists self = true
  | Raise e => RunApp.snakefile_exists self = false ∧ e = ValueError
  end.
Proof. unfold RunApp.fixed_args. by destruct (RunApp.snakefile_exists self). Qed.

(** X16: assembling the arguments of the engine fails only when the
    Snakefile does not exist, with [ValueError]; reading [ctx.args] and
    formatting the overrides never fail, and [CLI.run] appends one
    [key=value] str per override.  When the Snakefile is missing both
    [run] commands end by that error before anything is staged. *)
Theorem assemble_fails_only_without_snakefile py_str pipeline engine launch_gui save_dag
    self a self' a' wd :
  match Main.assemble py_str self a with
  | Ok (args, overrides) =>
      snakefile_exists self = true
      ∧ ∃ front kvs, args = front ++ "--config" :: kvs ∧ length kvs = length overrides
  | Raise e =>
      snakefile_exists self = false ∧ e = ValueError
      ∧ Main.run py_str pipeline engine launch_gui self a wd = (wd, Raised ValueError)
  end
  ∧ match RunApp.assemble py_str self' a' with
    | Ok args => RunApp.snakefile_exists self' = true
    | Raise e =>
        RunApp.snakefile_exists self' = false ∧ e = ValueError
        ∧ RunApp.run py_str pipeline engine save_dag self' a' wd
          = (wd, Raised ValueError)
    end.
Proof.
  split.
  - destruct (Main.assemble py_str self a) as [[args overrides]|e] eqn:Hassemble.
    + destruct (Main_assemble_config _ _ _ _ _ Hassemble)
        as (fixed & passthrough & kvs & Hfixed & Hparse & Hkvs & ->).
      pose proof (Main_fixed_args_cases self a) as Hcases. rewrite Hfixed in Hcases.
      split; [done|]. exists (fixed ++ passthrough), kvs.
      rewrite <- app_assoc. split; [done|].
      destruct (key_values_total py_str overrides (overrides_single _ _ _ _ Hparse))
        as (kvs' & Hkvs' & Hlen). congruence.
    + assert (snakefile_exists self = false ∧ e = ValueError) as [Hmissing ->].
      { unfold Main.assemble in Hassemble.
        pose proof (Main_fixed_args_cases self a) as Hcases.
        destruct (Main.fixed_args self a) as [fixed|e']; [|by injection Hassemble as <-].
        rewrite bind_Ok in Hassemble.
        destruct (parse_config_args_total (ctx_args a) (options self)) as (p & c & Hparse).
        rewrite Hparse, bind_Ok in Hassemble.
        destruct (key_values_total py_str c (overrides_single _ _ _ _ Hparse))
          as (kvs & Hkvs & _). by rewrite Hkvs in Hassemble. }
      split_and!; [done..|]. unfold Main.run. by rewrite Hassemble.
  - destruct (RunApp.assemble py_str self' a') as [args|e] eqn:Hassemble.
    + destruct (RunApp_assemble_config _ _ _ _ Hassemble) as (fixed & _ & _ & Hfixed & _).
      pose proof (RunApp_fixed_args_cases self' a') as Hcases. by rewrite Hfixed in Hcases.
    + assert (RunApp.snakefile_exists self' = false ∧ e = ValueError) as [Hmissing ->].
      { unfold RunApp.assemble in Hassemble.
        pose proof (RunApp_fixed_args_cases self' a') as Hcases.
        destruct (RunApp.fixed_args self' a') as [fixed|e']; [|by injection Hassemble as <-].
        rewrite bind_Ok in Hassemble.
        destruct (parse_config_args_total (RunApp.full_ctx_args a') (RunApp.options self'))
          as (p & c & Hparse).
        by rewrite Hparse in Hassemble. }
      split_and!; [done..|]. unfold RunApp.run. by rewrite Hassemble.
Qed.

(** X17: [CLI.run] of [main.py] does not catch the [SystemExit] of the
    engine: with cleanup of the resources the staged resources are
    removed and the command ends by that [SystemExit], whatever the
    status, without reaching the removal of [.snakemake]; this when the
    engine has left no link to a directory under the name of a copied
    resource: on such a link the cleanup stops, and the command ends by
    the [OSError] of [shutil.rmtree]. *)
Theorem cli_run_propagates_system_exit py_str pipeline engine launch_gui self a wd
    args overrides wd1 copied wd2 status :
  Main.assemble py_str self a = Ok (args, overrides) →
  cleanup_resources a = true →
  web_gui a = false →
  Main.stage pipeline (resources self) wd [] = (wd1, copied, None) →
  engine args wd1 = (wd2, Some (SystemExit status)) →
  (no_link_to_directory copied wd2 →
   Main.run py_str pipeline engine launch_gui self a wd
   = (cleanup_loop copied wd2, Raised (SystemExit status)))
  ∧ (∀ n target tree,
       n ∈ copied → wd2 !! n = Some (Symlink target (Some (SrcDir tree))) →
       (Main.run py_str pipeline engine launch_gui self a wd).2 = Raised OSError).
Proof.
  intros Hassemble Hcleanup Hgui Hstage Hengine. unfold Main.run.
  rewrite Hassemble, Hcleanup, Hgui. split.
  - intros Hlinks.
    rewrite (Main_copy_resources_staged _ _ _ _ _ _ _ Hstage);
      unfold Main.call; rewrite Hengine; done.
  - intros n target tree Hin Hlink.
    unfold Main.copy_resources, with_generator, Main.call, Main.unstage.
    rewrite Hstage, Hengine. cbn [fst snd negb].
    rewrite Main_stage_eq in Hstage. apply stage_copied_proper in Hstage.
    pose proof (Main_remove_copied_refused _ _ _ _ _ Hstage Hin Hlink) as Hrefused.
    destruct (Main.remove_copied copied wd2) as [wd3 ended]. cbn [snd] in Hrefused.
    by subst ended.
Qed.

Lemma cli_run_propagates_system_exit_witness :
  let staged : workdir := <["data.txt" := File "ACGT"]> demo_wd in
  (no_link_to_directory ["data.txt"] staged →
   Main.run demo_py_str demo_pipeline failing_engine demo_launch_gui demo_staging_cli
     demo_run_args demo_wd
   = (cleanup_loop ["data.txt"] staged, Raised (SystemExit 1)))
  ∧ (∀ n target tree,
       n ∈ ["data.txt"] → staged !! n = Some (Symlink target (Some (SrcDir tree))) →
       (Main.run demo_py_str demo_pipeline failing_engine demo_launch_gui demo_staging_cli
          demo_run_args demo_wd).2 = Raised OSError).
Proof.
  intros staged.
  apply (cli_run_propagates_system_exit demo_py_str demo_pipeline failing_engine
           demo_launch_gui demo_staging_cli demo_run_args demo_wd
           ["--use-conda"; "--use-singularity"; "--conda-prefix=/pipeline/.conda";
            "--cores=all"; "--snakefile=/pipeline/Snakefile"; "target"; "--dry-run";
            "--config"] []
           staged ["data.txt"] staged 1%Z); reflexivity.
Defined.

(** An engine that puts a link to a directory in the place of a staged
    resource: the cleanup of [main.py] stops on it, and its [OSError]
    takes the place of the [SystemExit]. *)
Example cli_run_cleanup_stops_on_link_to_directory :
  Main.run demo_py_str demo_pipeline
    (fun _ w => (<["data.txt" := Symlink "/data" (Some (SrcDir "tree"))]> w,
                 Some (SystemExit 1)))
    demo_launch_gui demo_staging_cli demo_run_args demo_wd
  = (<["data.txt" := Symlink "/data" (Some (SrcDir "tree"))]> demo_wd, Raised OSError).
Proof. vm_compute. reflexivity. Qed.

(** X18: [CLI.run] of [main.py] without cleanup of the resources: the
    way the engine ended is dropped by the context manager, and the
    command goes on to [shutil.rmtree(".snakemake")], which is not
    guarded: it removes the folder when [.snakemake] is a directory, and
    otherwise leaves the working directory as the engine left it and
    raises: [NotADirectoryError] on a file, [OSError] on a link to
    something, [FileNotFoundError] on a dangling link and when there is
    no [.snakemake]. *)
Theorem cli_run_unguarded_rmtree py_str pipeline engine launch_gui self a wd
    args overrides wd1 copied wd2 ended :
  Main.assemble py_str self a = Ok (args, overrides) →
  cleanup_resources a = false →
  cleanup_snakemake a = true →
  web_gui a = false →
  Main.stage pipeline (resources self) wd [] = (wd1, copied, None) →
  engine args wd1 = (wd2, ended) →
  Main.run py_str pipeline engine launch_gui self a wd
  = match wd2 !! ".snakemake" with
    | Some (Directory _) => (delete ".snakemake" wd2, Normal)
    | Some (File _) => (wd2, Raised NotADirectoryError)
    | Some (Symlink _ (Some _)) => (wd2, Raised OSError)
    | Some (Symlink _ None) | None => (wd2, Raised FileNotFoundError)
    end.
Proof.
  intros Hassemble Hcleanup Hsnakemake Hgui Hstage Hengine. unfold Main.run.
  rewrite Hassemble, Hcleanup, Hsnakemake, Hgui.
  rewrite (Main_copy_resources_staged _ _ _ _ _ _ _ Hstage) by done.
  unfold Main.call, seq. rewrite Hengine. cbn [fst snd].
  assert (match (match ended with Some e => Raised e | None => Normal end) with
          | Raised _ => Normal
          | out => out
          end = Normal) as -> by by destruct ended.
  unfold Main.rmtree_snakemake, rmtree.
  by destruct (wd2 !! ".snakemake") as [[data|tree|target [referent|]]|].
Qed.

Lemma cli_run_unguarded_rmtree_witness :
  Main.run demo_py_str demo_pipeline failing_engine demo_launch_gui demo_cli
    {| ctx_args := []; target := None; configfile := None; cleanup_resources := false;
       cleanup_snakemake := true; cores := Some 4%Z; verbose := true; web_gui := false |}
    {[ ".snakemake" := File "not a folder" ]}
  = match ({[ ".snakemake" := File "not a folder" ]} : workdir) !! ".snakemake" with
    | Some (Directory _) => (delete ".snakemake" {[ ".snakemake" := File "not a folder" ]}, Normal)
    | Some (File _) => ({[ ".snakemake" := File "not a folder" ]}, Raised NotADirectoryError)
    | Some (Symlink _ (Some _)) => ({[ ".snakemake" := File "not a folder" ]}, Raised OSError)
    | Some (Symlink _ None) | None =>
        ({[ ".snakemake" := File "not a folder" ]}, Raised FileNotFoundError)
    end.
Proof.
  apply (cli_run_unguarded_rmtree demo_py_str demo_pipeline failing_engine
           demo_launch_gui demo_cli _ {[ ".snakemake" := File "not a folder" ]}
           ["--verbose"; "--use-conda"; "--use-singularity";
            "--conda-prefix=/pipeline/.conda"; "--cores=4";
            "--snakefile=/pipeline/Snakefile"; "--config"] []
           {[ ".snakemake" := File "not a folder" ]} []
           {[ ".snakemake" := File "not a folder" ]} (Some (SystemExit 1))); reflexivity.
Defined.

(** X19: a [.snakemake] folder that is there when [RunApp.run] starts is
    never removed by it: staging skips the name, the cleanup of the
    resources does not list it, and the final removal is switched off;
    what the command leaves under that name is what the call under the
    [with] statement left. *)
Theorem preexisting_snakemake_is_kept py_str pipeline engine save_dag self a wd
    args wd1 copied :
  RunApp.assemble py_str self a = Ok args →
  exists_ wd ".snakemake" = true →
  RunApp.stage pipeline (RunApp.symlink_resources self)
    (RunApp.with_resources_folder pipeline (RunApp.resources self)) wd []
    = (wd1, copied, None) →
  (RunApp.run py_str pipeline engine save_dag self a wd).1 !! ".snakemake"
  = (RunApp.run_body engine save_dag a args wd1).1 !! ".snakemake".
Proof.
  intros Hassemble Hexists Hstage. unfold RunApp.run.
  rewrite Hassemble, Hexists, (RunApp_copy_resources_staged _ _ _ _ _ _ _ _ Hstage).
  destruct (stage_contract _ _ _ _ _ _ Hstage) as (Hcopied & _).
  assert (".snakemake" ∉ copied) as Hnotin.
  { intros [_ Hex%exists_false]%Hcopied. congruence. }
  destruct (RunApp.run_body engine save_dag a args wd1) as [wd2 out]. cbn [fst snd].
  assert (negb (if negb (RunApp.keep_snakemake a) && true then true
                else RunApp.keep_snakemake a) = false) as ->
    by by destruct (RunApp.keep_snakemake a).
  cbn [andb]. unfold seq.
  destruct (negb (RunApp.keep_resources a)); cbn [fst snd].
  - assert (cleanup_loop copied wd2 !! ".snakemake" = wd2 !! ".snakemake") as Hsame
      by by rewrite cleanup_lookup, bool_decide_false.
    by destruct out.
  - by destruct out.
Qed.

Lemma preexisting_snakemake_is_kept_witness :
  (RunApp.run demo_py_str demo_pipeline failing_engine demo_save_dag demo_app
     (demo_error_args false) {[ ".snakemake" := Directory "state" ]}).1 !! ".snakemake"
  = (RunApp.run_body failing_engine demo_save_dag (demo_error_args false)
       ["--rerun-incomplete"; "--cores=all"; "--snakefile=/pipeline/Snakefile";
        "--use-conda"; "--conda-prefix=/pipeline/.conda"; "--conda-frontend=mamba";
        "--forceall"; "--nolock"; "error"]
       (<["data.txt" := File "ACGT"]> {[ ".snakemake" := Directory "state" ]})).1
    !! ".snakemake".
Proof.
  apply (preexisting_snakemake_is_kept demo_py_str demo_pipeline failing_engine
           demo_save_dag demo_app (demo_error_args false)
           {[ ".snakemake" := Directory "state" ]} _ _ ["data.txt"]); reflexivity.
Defined.

(** X20: with [--dag] the engine is run as well, on the assembled
    arguments followed by [--dag]; whether it returns or ends by a
    [SystemExit], of any status, its output is then rendered, and when
    that ends well the command returns from inside the [with] statement:
    the staged resources are removed unless they are to be kept, the
    status of the engine is not the one of the command, and [.snakemake]
    is not removed. *)
Theorem dag_runs_the_engine_with_dag_flag py_str pipeline engine render_dag self a wd
    filename args wd1 copied wd2 ended wd3 :
  RunApp.assemble py_str self a = Ok args →
  RunApp.dag a = Some filename →
  RunApp.stage pipeline (RunApp.symlink_resources self)
    (RunApp.with_resources_folder pipeline (RunApp.resources self)) wd []
    = (wd1, copied, None) →
  engine (args ++ ["--dag"]) wd1 = (wd2, ended) →
  ended = None ∨ (∃ status, ended = Some (SystemExit status)) →
  render_dag (args ++ ["--dag"]) filename wd2 = (wd3, None) →
  RunApp.run py_str pipeline engine render_dag self a wd
  = (if RunApp.keep_resources a then wd3 else cleanup_loop copied wd3, Return).
Proof.
  intros Hassemble Hdag Hstage Hengine Hended Hrender. unfold RunApp.run.
  rewrite Hassemble, (RunApp_copy_resources_staged _ _ _ _ _ _ _ _ Hstage).
  unfold RunApp.run_body, RunApp._save_dag. rewrite Hdag, Hengine.
  assert (match ended with
          | Some (SystemExit _) | None =>
              let '(wd'', failed) := render_dag (args ++ ["--dag"]) filename wd2 in
              (wd'', match failed with Some e => Raised e | None => Normal end)
          | Some e => (wd2, Raised e)
          end = (wd3, Normal)) as ->.
  { rewrite Hrender. by destruct Hended as [->|[status ->]]. }
  by destruct (RunApp.keep_resources a).
Qed.

Lemma dag_runs_the_engine_with_dag_flag_witness :
  let a := {| RunApp.ctx_args := []; RunApp.target := None; RunApp.configfile := None;
              RunApp.profile := None; RunApp.force := false; RunApp.dry := false;
              RunApp.lock := false; RunApp.keep_resources := false;
              RunApp.keep_snakemake := false; RunApp.dag := Some "dag.pdf";
              RunApp.cores := None; RunApp.verbose := false |} in
  RunApp.run demo_py_str demo_pipeline failing_engine demo_save_dag demo_app a ∅
  = (if RunApp.keep_resources a then <["data.txt" := File "ACGT"]> ∅
     else cleanup_loop ["data.txt"] (<["data.txt" := File "ACGT"]> ∅), Return).
Proof.
  intros a.
  apply (dag_runs_the_engine_with_dag_flag demo_py_str demo_pipeline failing_engine
           demo_save_dag demo_app a ∅ "dag.pdf"
           ["--rerun-incomplete"; "--cores=all"; "--snakefile=/pipeline/Snakefile";
            "--use-conda"; "--conda-prefix=/pipeline/.conda"; "--conda-frontend=mamba";
            "--nolock"]
           (<["data.txt" := File "ACGT"]> ∅) ["data.txt"]
           (<["data.txt" := File "ACGT"]> ∅) (Some (SystemExit 1))
           (<["data.txt" := File "ACGT"]> ∅)); [reflexivity..| |reflexivity].
  right. by exists 1%Z.
Defined.

(** X21: [RunApp.run] appends the target to [ctx.args] before it reads
    them, so that a target given after a descriptor flag that has no
    value is read as the value of that flag: it is not handed to the
    engine as a target, and it becomes an override unless it equals the
    default. *)
Theorem target_is_read_as_pending_value self a t f :
  nonempty (RunApp.target a) = Some t →
  pending (RunApp.options self) (RunApp.ctx_args a) = Some f →
  ∃ p c op,
    parse_config_args (RunApp.ctx_args a) (RunApp.options self) = Ok (p, c)
    ∧ next_named (Str.lstrip "-" f) (RunApp.options self) = Ok op
    ∧ parse_config_args (RunApp.full_ctx_args a) (RunApp.options self)
      = Ok (p, if py_eq (op_default op) (VStr t) then c else c ++ [entry_of op t]).
Proof.
  intros Htarget Hpending. unfold RunApp.full_ctx_args. rewrite Htarget.
  unfold pending, parse_config_args in *. rewrite for_each_app.
  destruct (loop_total (RunApp.options self) (RunApp.ctx_args a) init (init_ok _))
    as ([fl p c] & Hloop & Hok).
  rewrite Hloop in Hpending |- *. cbn [flag] in Hpending. subst fl.
  pose proof (Hok f eq_refl) as [Hdash Hin]%is_flag_true.
  destruct (next_named_Ok _ _ Hin) as (op & Hop & _).
  exists p, c, op. split_and!; [done..|].
  rewrite bind_Ok. cbn [for_each]. by rewrite (parse_step_value _ _ _ _ _ op).
Qed.

Lemma target_is_read_as_pending_value_witness :
  let a := {| RunApp.ctx_args := ["--quiet"; "--a_b"]; RunApp.target := Some "all";
              RunApp.configfile := None; RunApp.profile := None; RunApp.force := false;
              RunApp.dry := false; RunApp.lock := false; RunApp.keep_resources := false;
              RunApp.keep_snakemake := false; RunApp.dag := None;
              RunApp.cores := None; RunApp.verbose := false |} in
  ∃ p c op,
    parse_config_args (RunApp.ctx_args a) (RunApp.options demo_app) = Ok (p, c)
    ∧ next_named (Str.lstrip "-" "--a_b") (RunApp.options demo_app) = Ok op
    ∧ parse_config_args (RunApp.full_ctx_args a) (RunApp.options demo_app)
      = Ok (p, if py_eq (op_default op) (VStr "all") then c else c ++ [entry_of op "all"]).
Proof.
  intros a. apply (target_is_read_as_pending_value demo_app a "all" "--a_b"); reflexivity.
Defined.
